(** * chatkmat: realtime message fan-out and conversation membership

    A shallow embedding of [src/chat.ts] (with the [requireAuth] hook of
    [src/auth.ts]): the zod schema of the send-message body, the membership
    query, the three route handlers cut at their [await] points, the
    in-memory list [wsClients], and an event-loop model in which the handler
    segments of different requests interleave; then the upload route of
    [src/chat.ts] and the login route of [src/auth.ts]. *)

From Stdlib Require Import List ZArith NArith Bool String Ascii Lia.
From Stdlib Require Import Sorting.Sorted Sorting.Permutation.
From Stdlib Require Import DecimalString DecimalN.
Import ListNotations.

Set Implicit Arguments.

(** ** JavaScript strings

    A JavaScript string is a sequence of UTF-16 code units.  [js] writes an
    ASCII literal. *)

Definition jsstring := list N.

Definition js (s : string) : jsstring :=
  map N_of_ascii (list_ascii_of_string s).

Fixpoint jsstring_eqb (a b : jsstring) : bool :=
  match a, b with
  | [], [] => true
  | x :: a', y :: b' => N.eqb x y && jsstring_eqb a' b'
  | _, _ => false
  end.

(** [s.startsWith(p)] *)
Fixpoint startsWith (p s : jsstring) : bool :=
  match p, s with
  | [], _ => true
  | x :: p', y :: s' => N.eqb x y && startsWith p' s'
  | _ :: _, [] => false
  end.

(** [s.slice(n)] for [0 <= n] *)
Definition slice (n : nat) (s : jsstring) : jsstring := skipn n s.

(** ECMAScript WhiteSpace and LineTerminator code points, the ones
    [String.prototype.trim] strips. *)
Definition is_js_space (c : N) : bool :=
  match c with
  | 9 | 10 | 11 | 12 | 13 | 32 | 160 => true
  | 5760 => true                          (* U+1680 *)
  | 8232 | 8233 | 8239 | 8287 => true     (* U+2028 U+2029 U+202F U+205F *)
  | 12288 | 65279 => true                 (* U+3000 U+FEFF *)
  | _ => (8192 <=? c) && (c <=? 8202)     (* U+2000 .. U+200A *)
  end%N.

Fixpoint trimStart (s : jsstring) : jsstring :=
  match s with
  | c :: s' => if is_js_space c then trimStart s' else s
  | [] => []
  end.

Definition trimEnd (s : jsstring) : jsstring := rev (trimStart (rev s)).

Definition trim (s : jsstring) : jsstring := trimEnd (trimStart s).

(** Truthiness of a string: only the empty string is falsy. *)
Definition truthy (s : jsstring) : bool :=
  match s with [] => false | _ :: _ => true end.

(** Truthiness of [string | undefined] (or [string | null]). *)
Definition truthy_opt (o : option jsstring) : bool :=
  match o with Some s => truthy s | None => false end.

(** [a || b] on [string | null] operands. *)
Definition js_or (a b : option jsstring) : option jsstring :=
  if truthy_opt a then a else b.

(** ** JSON values

    [req.body] and [mediaMeta] are parsed JSON.  An absent property
    ([undefined]) is [None] at the place where it is read. *)

#[warnings="-register-all"]
Inductive JsVal : Type :=
| JNull
| JBool (b : bool)
| JNum (n : Z)            (* numbers are carried, never inspected *)
| JStr (s : jsstring)
| JArr (items : list JsVal)
| JObj (props : list (jsstring * JsVal)).

(** [obj[key]] on the own properties of an object. *)
Fixpoint get_prop (key : jsstring) (props : list (jsstring * JsVal))
  : option JsVal :=
  match props with
  | [] => None
  | (k, v) :: rest => if jsstring_eqb k key then Some v else get_prop key rest
  end.

(** [x ?? null] on [string | undefined] *)
Definition str_or_null (o : option jsstring) : JsVal :=
  match o with Some s => JStr s | None => JNull end.

(** [x ?? null] on [any]: [undefined] and [null] both give [null]. *)
Definition any_or_null (o : option JsVal) : JsVal :=
  match o with Some v => v | None => JNull end.

(** ** The message type enum, [z.enum(["text","image","video","audio"])] *)

Inductive MsgType := TText | TImage | TVideo | TAudio.

Definition MsgType_name (t : MsgType) : jsstring :=
  match t with
  | TText => js "text"
  | TImage => js "image"
  | TVideo => js "video"
  | TAudio => js "audio"
  end.

Definition MsgType_of_name (s : jsstring) : option MsgType :=
  if jsstring_eqb s (js "text") then Some TText
  else if jsstring_eqb s (js "image") then Some TImage
  else if jsstring_eqb s (js "video") then Some TVideo
  else if jsstring_eqb s (js "audio") then Some TAudio
  else None.

(** ** The store behind [q]

    Rows of the two tables the queries of [chat.ts] touch. *)

Record ConversationRow := {
  conv_id : jsstring;
  user_a_id : jsstring;
  user_b_id : jsstring
}.

Record MessageRow := {
  msg_id : jsstring;
  conversation_id : jsstring;
  sender_id : jsstring;
  msg_type : MsgType;
  msg_text : option jsstring;        (* None is SQL NULL *)
  media_url : option jsstring;
  media_meta : option JsVal;
  created_at : Z
}.

Record Db := {
  conversations : list ConversationRow;
  messages : list MessageRow
}.

(** Modelled from the spec: [db.ts] (the [q] wrapper over the Persistence
    Gateway) is not among the sources.  Each SQL text of [chat.ts] is given
    its meaning on [Db]: columns compare as text and the store answers every
    query.  This one is the gateway's [getConversation] as [isParticipant]
    asks it:
    [select true as ok from conversations
      where id=$1 and (user_a_id=$2 or user_b_id=$2) limit 1] *)
Definition q_select_participant (db : Db) (conversationId uid : jsstring)
  : list bool :=
  map (fun _ => true)
    (firstn 1
      (filter (fun c => jsstring_eqb (conv_id c) conversationId
                        && (jsstring_eqb (user_a_id c) uid
                            || jsstring_eqb (user_b_id c) uid))
              (conversations db))).

(** [!!rows[0]?.ok] *)
Definition first_ok (rows : list bool) : bool :=
  match nth_error rows 0 with
  | Some ok => ok
  | None => false
  end.

(** [isParticipant], chat.ts lines 29-38, once its query is answered by
    [db]. *)
Definition isParticipant (db : Db) (conversationId uid : jsstring) : bool :=
  first_ok (q_select_participant db conversationId uid).

(** A row of the history query: [id, senderId, type, text, mediaUrl,
    mediaMeta, createdAt]. *)
Record HistoryRow := {
  h_id : jsstring;
  h_senderId : jsstring;
  h_type : MsgType;
  h_text : option jsstring;
  h_mediaUrl : option jsstring;
  h_mediaMeta : option JsVal;
  h_createdAt : Z
}.

Definition history_row (m : MessageRow) : HistoryRow :=
  {| h_id := msg_id m; h_senderId := sender_id m; h_type := msg_type m;
     h_text := msg_text m; h_mediaUrl := media_url m;
     h_mediaMeta := media_meta m; h_createdAt := created_at m |}.

(** [order by created_at asc]: a stable insertion sort (SQL leaves the
    order of rows with equal keys open; no statement below depends on it). *)
Fixpoint insert_by_created_at (m : MessageRow) (l : list MessageRow)
  : list MessageRow :=
  match l with
  | [] => [m]
  | x :: l' =>
      if (created_at m <=? created_at x)%Z then m :: l
      else x :: insert_by_created_at m l'
  end.

Definition order_by_created_at (l : list MessageRow) : list MessageRow :=
  fold_right insert_by_created_at [] l.

(** Modelled from the spec: the answer of the store ([db.ts] is missing) to
    [select ... from messages where conversation_id=$1
      order by created_at asc limit 500],
    the gateway's [listMessages(conversationId, limit)]. *)
Definition q_select_history (db : Db) (conversationId : jsstring)
  : list HistoryRow :=
  map history_row
    (firstn 500
      (order_by_created_at
        (filter (fun m => jsstring_eqb (conversation_id m) conversationId)
                (messages db)))).

(** A query parameter that is [null] is stored as SQL NULL. *)
Definition sql_text (v : JsVal) : option jsstring :=
  match v with JStr s => Some s | _ => None end.

Definition sql_json (v : JsVal) : option JsVal :=
  match v with JNull => None | _ => Some v end.

(** Modelled from the spec: the answer of the store ([db.ts] is missing) to
    [insert into messages (conversation_id, sender_id, type, text,
      media_url, media_meta) values ($1,...,$6) returning id],
    the gateway's [insertMessage(...) -> (id, createdAt)]; [fresh] is the
    identifier and the creation time the store assigns. *)
Definition q_insert_message (db : Db) (fresh : jsstring * Z)
    (conversationId uid : jsstring) (type : MsgType)
    (text mediaUrl mediaMeta : JsVal)
  : Db * list jsstring :=
  let row := {| msg_id := fst fresh; conversation_id := conversationId;
                sender_id := uid; msg_type := type; msg_text := sql_text text;
                media_url := sql_text mediaUrl;
                media_meta := sql_json mediaMeta;
                created_at := snd fresh |} in
  ({| conversations := conversations db;
      messages := messages db ++ [row] |},
   [msg_id row]).

(** ** Requests, replies and the platform

    What Fastify, zod, [@fastify/jwt] and the JSON serializer contribute is
    taken as given: the uuid format test of [z.string().uuid()],
    [JSON.stringify], [req.jwtVerify()] and [app.jwt.verify(token)]. *)

Record HttpReq := {
  params_id : jsstring;            (* req.params.id *)
  body : option JsVal;             (* req.body, None when there is none *)
  credentials : option jsstring    (* what req.jwtVerify() reads *)
}.

Record WsReq := {
  headers_authorization : option jsstring;
  query_token : option jsstring;
  query_conversationId : option jsstring
}.

Record JwtPayload := { payload_uid : jsstring }.

Record Platform := {
  is_uuid : jsstring -> bool;
  JSON_stringify : JsVal -> jsstring;
  req_jwtVerify : HttpReq -> option JwtPayload;
  jwt_verify : jsstring -> option JwtPayload
}.

Inductive Reply :=
| Unauthenticated                     (* 401 { message: "Não autenticado" } *)
| InvalidData                         (* 400 { message: "Dados inválidos" } *)
| NoAccess                            (* 403 { message: "Sem acesso a esta conversa" } *)
| TextRequired                        (* 400 { message: "Texto obrigatório" } *)
| MediaUrlRequired                    (* 400 { message: "mediaUrl obrigatório para mídia" } *)
| Messages (rows : list HistoryRow)   (* 200 { messages: rows } *)
| Sent (id : jsstring)                (* 200 { ok: true, id: messageId } *)
| InternalError.                      (* 500, Fastify's reply to a handler that throws *)

Definition status_code (r : Reply) : nat :=
  match r with
  | Unauthenticated => 401
  | InvalidData | TextRequired | MediaUrlRequired => 400
  | NoAccess => 403
  | Messages _ | Sent _ => 200
  | InternalError => 500
  end.

(** The error names of the specification. *)
Definition InvalidInput (r : Reply) : Prop := status_code r = 400.
Definition Forbidden (r : Reply) : Prop := status_code r = 403.

(** ** [SendMessageBody], chat.ts lines 9-15 *)

Record SendData := {
  d_conversationId : jsstring;
  d_type : MsgType;
  d_text : option jsstring;
  d_mediaUrl : option jsstring;
  d_mediaMeta : option JsVal
}.

Definition z_string (v : option JsVal) : option jsstring :=
  match v with Some (JStr s) => Some s | _ => None end.

Definition z_string_uuid (P : Platform) (v : option JsVal) : option jsstring :=
  match z_string v with
  | Some s => if is_uuid P s then Some s else None
  | None => None
  end.

Definition z_enum_type (v : option JsVal) : option MsgType :=
  match z_string v with Some s => MsgType_of_name s | None => None end.

(** [z.string().optional()]: absent is accepted, anything else must be a
    string ([null] is refused). *)
Definition z_string_optional (v : option JsVal) : option (option jsstring) :=
  match v with
  | None => Some None
  | Some (JStr s) => Some (Some s)
  | Some _ => None
  end.

Definition z_any_optional (v : option JsVal) : option (option JsVal) := Some v.

(** [SendMessageBody.safeParse(req.body)]; [None] is [success: false]. *)
Definition SendMessageBody_safeParse (P : Platform) (b : option JsVal)
  : option SendData :=
  match b with
  | Some (JObj props) =>
      match z_string_uuid P (get_prop (js "conversationId") props),
            z_enum_type (get_prop (js "type") props),
            z_string_optional (get_prop (js "text") props),
            z_string_optional (get_prop (js "mediaUrl") props),
            z_any_optional (get_prop (js "mediaMeta") props) with
      | Some c, Some t, Some x, Some u, Some mm =>
          Some {| d_conversationId := c; d_type := t; d_text := x;
                  d_mediaUrl := u; d_mediaMeta := mm |}
      | _, _, _, _, _ => None
      end
  | _ => None
  end.

(** ** Process memory: [wsClients] and the sockets

    A [WsClient] is an object: [ref] is its identity, the thing
    [indexOf] compares.  A socket is known by its number; [sent] is the trace
    of [socket.send] calls, [closed] of [socket.close] calls, [listeners]
    the ['close'] callbacks (each closes over its client), and [failing]
    the sockets whose [send] currently throws. *)

Record WsClient := {
  ref : nat;
  uid : jsstring;
  conversationId : jsstring;
  socket : nat
}.

Record SendCall := {
  call_socket : nat;
  call_frame : jsstring;
  call_threw : bool
}.

Record Mem := {
  wsClients : list WsClient;
  next_ref : nat;
  listeners : list (nat * WsClient);
  sent : list SendCall;
  closed : list nat;
  failing : list nat
}.

Definition empty_mem : Mem :=
  {| wsClients := []; next_ref := 0; listeners := []; sent := [];
     closed := []; failing := [] |}.

Definition set_wsClients (m : Mem) (l : list WsClient) : Mem :=
  {| wsClients := l; next_ref := next_ref m; listeners := listeners m;
     sent := sent m; closed := closed m; failing := failing m |}.

(** Completion of a statement: normal, or an exception in flight. *)
Inductive Completion := Normal | Throw.

(** [s.send(frame)] *)
Definition socket_send (s : nat) (frame : jsstring) (m : Mem)
  : Mem * Completion :=
  let threw := existsb (Nat.eqb s) (failing m) in
  ({| wsClients := wsClients m; next_ref := next_ref m;
      listeners := listeners m;
      sent := sent m ++ [{| call_socket := s; call_frame := frame;
                            call_threw := threw |}];
      closed := closed m; failing := failing m |},
   if threw then Throw else Normal).

(** [s.close()] *)
Definition socket_close (s : nat) (m : Mem) : Mem :=
  {| wsClients := wsClients m; next_ref := next_ref m;
     listeners := listeners m; sent := sent m;
     closed := closed m ++ [s]; failing := failing m |}.

(** [s.on("close", cb)] where [cb] closes over [client] *)
Definition socket_on_close (s : nat) (client : WsClient) (m : Mem) : Mem :=
  {| wsClients := wsClients m; next_ref := next_ref m;
     listeners := listeners m ++ [(s, client)]; sent := sent m;
     closed := closed m; failing := failing m |}.

(** [try { body } catch {}] *)
Definition try_catch_ignore (r : Mem * Completion) : Mem * Completion :=
  (fst r, Normal).

(** [arr.forEach(f)]: an exception leaving [f] ends the loop. *)
Fixpoint forEach (A : Type) (f : A -> Mem -> Mem * Completion)
    (arr : list A) (m : Mem) : Mem * Completion :=
  match arr with
  | [] => (m, Normal)
  | x :: rest =>
      match f x m with
      | (m', Normal) => forEach f rest m'
      | (m', Throw) => (m', Throw)
      end
  end.

(** [a === b] on client objects *)
Definition same_object (a b : WsClient) : bool := Nat.eqb (ref a) (ref b).

(** [arr.indexOf(c)] *)
Fixpoint indexOf (c : WsClient) (arr : list WsClient) : Z :=
  match arr with
  | [] => (-1)%Z
  | x :: rest =>
      if same_object x c then 0%Z
      else let i := indexOf c rest in
           if (i <? 0)%Z then (-1)%Z else (i + 1)%Z
  end.

(** [arr.splice(idx, 1)] for [0 <= idx] *)
Definition splice1 (A : Type) (idx : nat) (arr : list A) : list A :=
  firstn idx arr ++ skipn (S idx) arr.

(** [wsClients.push(client)] with a new object for the literal *)
Definition new_client (u c : jsstring) (s : nat) (m : Mem) : WsClient :=
  {| ref := next_ref m; uid := u; conversationId := c; socket := s |}.

Definition wsClients_push (client : WsClient) (m : Mem) : Mem :=
  {| wsClients := wsClients m ++ [client]; next_ref := S (next_ref m);
     listeners := listeners m; sent := sent m; closed := closed m;
     failing := failing m |}.

(** The ['close'] callback, chat.ts lines 208-211. *)
Definition on_close (client : WsClient) (m : Mem) : Mem :=
  let idx := indexOf client (wsClients m) in
  if (idx >=? 0)%Z then set_wsClients m (splice1 (Z.to_nat idx) (wsClients m))
  else m.

(** ** Handlers as resumable programs

    An [async] handler runs until its next [await q(...)], is suspended
    while the store answers, and is resumed with the rows.  [Prog] is what
    is left of a handler at such a point: it has finished (an HTTP reply, or
    nothing for the WebSocket route), or it waits for one of the three
    queries with the code that follows, which reads and writes the process
    memory when it is resumed. *)

#[warnings="-register-all"]
Inductive Prog : Type :=
| Finish (reply : option Reply)
| AwaitParticipant (conversationId uid : jsstring)
    (k : list bool -> Mem -> Mem * Prog)
| AwaitHistory (conversationId : jsstring)
    (k : list HistoryRow -> Mem -> Mem * Prog)
| AwaitInsert (conversationId uid : jsstring) (type : MsgType)
    (text mediaUrl mediaMeta : JsVal)
    (k : list jsstring -> Mem -> Mem * Prog).

(** [await isParticipant(conversationId, uid)] followed by [k] *)
Definition await_isParticipant (conversationId uid : jsstring)
    (k : bool -> Mem -> Mem * Prog) : Prog :=
  AwaitParticipant conversationId uid (fun rows => k (first_ok rows)).

Section ChatRoutes.

Variable P : Platform.

(** [GET /conversations/:id/messages], chat.ts lines 45-73, behind the
    [requireAuth] hook of auth.ts lines 97-103. *)
Definition get_conversation_messages (req : HttpReq) : Prog :=
  match req_jwtVerify P req with
  | None => Finish (Some Unauthenticated)
  | Some user =>
      let conversationId := params_id req in
      let uid := payload_uid user in
      await_isParticipant conversationId uid (fun ok m =>
        if negb ok then (m, Finish (Some NoAccess))
        else (m, AwaitHistory conversationId (fun rows m' =>
                   (m', Finish (Some (Messages rows))))))
  end.

(** The object handed to [JSON.stringify], chat.ts lines 111-122. *)
Definition message_new_event (messageId conversationId uid : jsstring)
    (type : MsgType) (text mediaUrl : option jsstring)
    (mediaMeta : option JsVal) : JsVal :=
  JObj [ (js "event", JStr (js "message:new"));
         (js "data",
          JObj [ (js "id", JStr messageId);
                 (js "conversationId", JStr conversationId);
                 (js "senderId", JStr uid);
                 (js "type", JStr (MsgType_name type));
                 (js "text", str_or_null text);
                 (js "mediaUrl", str_or_null mediaUrl);
                 (js "mediaMeta", any_or_null mediaMeta) ]) ].

(** The broadcast, chat.ts lines 106-125. *)
Definition broadcast (messageId : jsstring) (data : SendData)
    (uid : jsstring) (m : Mem) : Mem * Completion :=
  forEach
    (fun c m' =>
       try_catch_ignore
         (socket_send (socket c)
            (JSON_stringify P
               (message_new_event messageId (d_conversationId data) uid
                  (d_type data) (d_text data) (d_mediaUrl data)
                  (d_mediaMeta data)))
            m'))
    (filter (fun c => jsstring_eqb (conversationId c) (d_conversationId data))
            (wsClients m))
    m.

(** The content check, chat.ts lines 90-94: [Some r] is the early return. *)
Definition check_content (data : SendData) : option Reply :=
  match d_type data with
  | TText =>
      match d_text data with
      | None => Some TextRequired
      | Some text =>
          if negb (truthy text) || negb (truthy (trim text))
          then Some TextRequired else None
      end
  | _ =>
      if negb (truthy_opt (d_mediaUrl data)) then Some MediaUrlRequired
      else None
  end.

(** [POST /messages], chat.ts lines 76-129, behind [requireAuth]; the code
    after each [await] is named after the line it resumes at. *)
Definition post_after_insert (data : SendData) (uid : jsstring)
    (rows : list jsstring) (m : Mem) : Mem * Prog :=
  match rows with
  | [] => (m, Finish (Some InternalError))       (* rows[0]!.id throws *)
  | messageId :: _ =>
      match broadcast messageId data uid m with
      | (m', Normal) => (m', Finish (Some (Sent messageId)))
      | (m', Throw) => (m', Finish (Some InternalError))
      end
  end.

Definition post_after_participant (data : SendData) (uid : jsstring)
    (ok : bool) (m : Mem) : Mem * Prog :=
  if negb ok then (m, Finish (Some NoAccess))
  else
    match check_content data with
    | Some r => (m, Finish (Some r))
    | None =>
        (m, AwaitInsert (d_conversationId data) uid (d_type data)
              (str_or_null (d_text data)) (str_or_null (d_mediaUrl data))
              (any_or_null (d_mediaMeta data))
              (post_after_insert data uid))
    end.

Definition post_messages (req : HttpReq) : Prog :=
  match req_jwtVerify P req with
  | None => Finish (Some Unauthenticated)
  | Some user =>
      match SendMessageBody_safeParse P (body req) with
      | None => Finish (Some InvalidData)
      | Some data =>
          let uid := payload_uid user in
          await_isParticipant (d_conversationId data) uid
            (post_after_participant data uid)
      end
  end.

(** [GET /ws], chat.ts lines 171-212, for the connection whose socket is
    [sock].  The part up to [await isParticipant] runs when the handler is
    entered. *)
Definition ws_token (req : WsReq) : option jsstring :=
  let tokenFromHeader :=
    match headers_authorization req with
    | Some auth =>
        if startsWith (js "Bearer ") auth
        then Some (slice (List.length (js "Bearer ")) auth) else None
    | None => None
    end in
  let tokenFromQuery := js_or (query_token req) None in
  js_or tokenFromHeader tokenFromQuery.

Definition ws_after_participant (sock : nat) (conversationId uid : jsstring)
    (ok : bool) (m : Mem) : Mem * Prog :=
  if negb ok then (socket_close sock m, Finish None)
  else
    let client := new_client uid conversationId sock m in
    (socket_on_close sock client (wsClients_push client m), Finish None).

Definition ws_handler (sock : nat) (req : WsReq) (m : Mem) : Mem * Prog :=
  let token := ws_token req in
  if negb (truthy_opt token) then (socket_close sock m, Finish None)
  else
    match token with
    | None => (socket_close sock m, Finish None)
    | Some tok =>
        match jwt_verify P tok with
        | None => (socket_close sock m, Finish None)
        | Some payload =>
            let conversationId :=
              match js_or (query_conversationId req) (Some []) with
              | Some c => c
              | None => []
              end in
            if negb (truthy conversationId)
            then (socket_close sock m, Finish None)
            else
              let uid := payload_uid payload in
              (m, await_isParticipant conversationId uid
                    (ws_after_participant sock conversationId uid))
        end
    end.

(** ** The event loop

    One task per request.  A task is runnable (its next segment is ready to
    run on the process memory) or suspended on a query.  The store answers a
    suspended task at some later moment; whatever else happened in between
    is what the resumed segment finds in memory. *)

Inductive Origin := Http | Ws (sock : nat).

Inductive TaskState :=
| Runnable (k : Mem -> Mem * Prog)
| Suspended (p : Prog).

Record Task := { origin : Origin; state : TaskState }.

Record Sys := {
  db : Db;
  mem : Mem;
  pool : list Task;
  next_sock : nat
}.

Inductive Event :=
| HttpGetMessages (req : HttpReq)
| HttpPostMessages (req : HttpReq)
| WsConnect (req : WsReq)
| StoreAnswers (i : nat) (fresh : jsstring * Z)
| Resume (i : nat)
| SocketCloses (s : nat)
| SocketFails (s : nat)
| SocketRecovers (s : nat).

(** The store runs the query a suspended program waits for. *)
Definition answer (d : Db) (fresh : jsstring * Z) (p : Prog)
  : option (Db * (Mem -> Mem * Prog)) :=
  match p with
  | Finish _ => None
  | AwaitParticipant c u k => Some (d, k (q_select_participant d c u))
  | AwaitHistory c k => Some (d, k (q_select_history d c))
  | AwaitInsert c u t x mu mm k =>
      let (d', rows) := q_insert_message d fresh c u t x mu mm in
      Some (d', k rows)
  end.

Fixpoint set_nth (A : Type) (i : nat) (x : A) (l : list A) : list A :=
  match l, i with
  | [], _ => []
  | _ :: l', O => x :: l'
  | y :: l', S i' => y :: set_nth i' x l'
  end.

(** The transport emits ['close'] on socket [s]: its listeners run. *)
Definition close_listeners (s : nat) (ls : list (nat * WsClient)) (m : Mem)
  : Mem :=
  fold_left (fun m' l => if Nat.eqb (fst l) s then on_close (snd l) m' else m')
            ls m.

Definition emit_close (s : nat) (m : Mem) : Mem :=
  close_listeners s (listeners m) m.

Definition set_failing (m : Mem) (l : list nat) : Mem :=
  {| wsClients := wsClients m; next_ref := next_ref m;
     listeners := listeners m; sent := sent m; closed := closed m;
     failing := l |}.

Definition step (s : Sys) (e : Event) : Sys :=
  match e with
  | HttpGetMessages req =>
      {| db := db s; mem := mem s; next_sock := next_sock s;
         pool := pool s ++ [{| origin := Http;
                               state := Suspended (get_conversation_messages req) |}] |}
  | HttpPostMessages req =>
      {| db := db s; mem := mem s; next_sock := next_sock s;
         pool := pool s ++ [{| origin := Http;
                               state := Suspended (post_messages req) |}] |}
  | WsConnect req =>
      {| db := db s; mem := mem s; next_sock := S (next_sock s);
         pool := pool s ++ [{| origin := Ws (next_sock s);
                               state := Runnable (ws_handler (next_sock s) req) |}] |}
  | StoreAnswers i fresh =>
      match nth_error (pool s) i with
      | Some {| origin := o; state := Suspended p |} =>
          match answer (db s) fresh p with
          | Some (d', k) =>
              {| db := d'; mem := mem s; next_sock := next_sock s;
                 pool := set_nth i {| origin := o; state := Runnable k |} (pool s) |}
          | None => s
          end
      | _ => s
      end
  | Resume i =>
      match nth_error (pool s) i with
      | Some {| origin := o; state := Runnable k |} =>
          let (m', p) := k (mem s) in
          {| db := db s; mem := m'; next_sock := next_sock s;
             pool := set_nth i {| origin := o; state := Suspended p |} (pool s) |}
      | _ => s
      end
  | SocketCloses sock =>
      {| db := db s; mem := emit_close sock (mem s); next_sock := next_sock s;
         pool := pool s |}
  | SocketFails sock =>
      {| db := db s; mem := set_failing (mem s) (sock :: failing (mem s));
         next_sock := next_sock s; pool := pool s |}
  | SocketRecovers sock =>
      {| db := db s;
         mem := set_failing (mem s)
                  (filter (fun x => negb (Nat.eqb x sock)) (failing (mem s)));
         next_sock := next_sock s; pool := pool s |}
  end.

(** The server starts with an empty [wsClients] over any store. *)
Definition initial (d : Db) : Sys :=
  {| db := d; mem := empty_mem; pool := []; next_sock := 0 |}.

Inductive reachable : Sys -> Prop :=
| reach_initial d : reachable (initial d)
| reach_step s e : reachable s -> reachable (step s e).

(** A handler run with nothing else scheduled in between: every query is
    answered at once and the program resumed. *)
Fixpoint run_alone (fresh : jsstring * Z) (p : Prog) (d : Db) (m : Mem)
  : Db * Mem * option Reply :=
  match p with
  | Finish r => (d, m, r)
  | AwaitParticipant c u k =>
      let (m', p') := k (q_select_participant d c u) m in
      run_alone fresh p' d m'
  | AwaitHistory c k =>
      let (m', p') := k (q_select_history d c) m in
      run_alone fresh p' d m'
  | AwaitInsert c u t x mu mm k =>
      let (d', rows) := q_insert_message d fresh c u t x mu mm in
      let (m', p') := k rows m in
      run_alone fresh p' d' m'
  end.

End ChatRoutes.

(** ** A concrete platform and store for the examples *)

Definition is_hex (c : N) : bool :=
  ((48 <=? c) && (c <=? 57) || (65 <=? c) && (c <=? 70)
   || (97 <=? c) && (c <=? 102))%N.

Fixpoint matches_groups (groups : list nat) (s : jsstring) : bool :=
  match groups with
  | [] => match s with [] => true | _ => false end
  | g :: rest =>
      forallb is_hex (firstn g s) && Nat.eqb (List.length (firstn g s)) g
      && match rest, skipn g s with
         | [], [] => true
         | _ :: _, 45%N :: s' => matches_groups rest s'
         | _, _ => false
         end
  end.

Definition demo_is_uuid (s : jsstring) : bool :=
  matches_groups [8; 4; 4; 4; 12]%nat s.

(** A token of the demo platform is ["tok:"] followed by the user id. *)
Definition demo_jwt_verify (tok : jsstring) : option JwtPayload :=
  if startsWith (js "tok:") tok && truthy (slice 4 tok)
  then Some {| payload_uid := slice 4 tok |} else None.

Definition demo_req_jwtVerify (req : HttpReq) : option JwtPayload :=
  match credentials req with
  | Some tok => demo_jwt_verify tok
  | None => None
  end.

Fixpoint demo_stringify (v : JsVal) : jsstring :=
  match v with
  | JNull => js "null"
  | JBool true => js "true"
  | JBool false => js "false"
  | JNum n => js "#" ++ [Z.to_N (Z.abs n)]
  | JStr s => [34%N] ++ s ++ [34%N]
  | JArr items => js "[" ++ flat_map (fun x => demo_stringify x ++ js ",") items ++ js "]"
  | JObj props =>
      js "{"
      ++ flat_map (fun kv => [34%N] ++ fst kv ++ [34%N] ++ js ":"
                             ++ demo_stringify (snd kv) ++ js ",") props
      ++ js "}"
  end.

Definition demo : Platform :=
  {| is_uuid := demo_is_uuid; JSON_stringify := demo_stringify;
     req_jwtVerify := demo_req_jwtVerify; jwt_verify := demo_jwt_verify |}.

Definition c1 : jsstring := js "11111111-1111-4111-8111-111111111111".
Definition c2 : jsstring := js "22222222-2222-4222-8222-222222222222".

Definition demo_db : Db :=
  {| conversations :=
       [ {| conv_id := c1; user_a_id := js "U1"; user_b_id := js "U2" |};
         {| conv_id := c2; user_a_id := js "U2"; user_b_id := js "U4" |} ];
     messages := [] |}.

(** A run of the event loop. *)
Definition run_events (P : Platform) (s : Sys) (es : list Event) : Sys :=
  fold_left (step P) es s.

(** Requests and a run of the demo server: U2 and U1 connect to [c1], U4
    to [c2] (token in the header), and U3, no participant of [c1], is turned
    away. *)
Definition field (key value : string) : jsstring * JsVal :=
  (js key, JStr (js value)).

Definition send_body (conv type : string) (fields : list (jsstring * JsVal))
  : JsVal :=
  JObj (field "conversationId" conv :: field "type" type :: fields).

Definition post_req (tok : string) (b : JsVal) : HttpReq :=
  {| params_id := c1; body := Some b; credentials := Some (js tok) |}.

Definition body_hi : JsVal :=
  send_body "11111111-1111-4111-8111-111111111111" "text" [field "text" " hi "].

Definition body_blank : JsVal :=
  send_body "11111111-1111-4111-8111-111111111111" "text" [field "text" "  "].

Definition body_photo : JsVal :=
  send_body "11111111-1111-4111-8111-111111111111" "image"
    [field "text" " look "; field "mediaUrl" "/files/1_a.png"].

Definition body_malformed : JsVal :=
  send_body "c1" "text" [field "text" "hi"].

Definition ws_query (tok conv : string) : WsReq :=
  {| headers_authorization := None; query_token := Some (js tok);
     query_conversationId := Some (js conv) |}.

Definition ws_header (tok conv : string) : WsReq :=
  {| headers_authorization := Some (js "Bearer " ++ js tok);
     query_token := Some (js "ignored");
     query_conversationId := Some (js conv) |}.

Definition connect (i : nat) (req : WsReq) : list Event :=
  [WsConnect req; Resume i; StoreAnswers i ([], 0%Z); Resume i].

Definition demo_events : list Event :=
  connect 0 (ws_query "tok:U2" "11111111-1111-4111-8111-111111111111")
  ++ connect 1 (ws_header "tok:U4" "22222222-2222-4222-8222-222222222222")
  ++ connect 2 (ws_query "tok:U1" "11111111-1111-4111-8111-111111111111")
  ++ connect 3 (ws_query "tok:U3" "11111111-1111-4111-8111-111111111111")
  ++ [SocketFails 0].

Definition demo_state : Sys := run_events demo (initial demo_db) demo_events.

Definition demo_client (i : nat) : WsClient :=
  nth i (wsClients (mem demo_state))
    {| ref := 0; uid := []; conversationId := []; socket := 0 |}.

Definition demo_data_hi : SendData :=
  {| d_conversationId := c1; d_type := TText; d_text := Some (js " hi ");
     d_mediaUrl := None; d_mediaMeta := None |}.

Definition demo_history_db : Db :=
  {| conversations := conversations demo_db;
     messages :=
       [ {| msg_id := js "m3"; conversation_id := c1; sender_id := js "U1";
            msg_type := TText; msg_text := Some (js "third");
            media_url := None; media_meta := None; created_at := 30 |};
         {| msg_id := js "mx"; conversation_id := c2; sender_id := js "U4";
            msg_type := TText; msg_text := Some (js "elsewhere");
            media_url := None; media_meta := None; created_at := 15 |};
         {| msg_id := js "m1"; conversation_id := c1; sender_id := js "U2";
            msg_type := TImage; msg_text := None;
            media_url := Some (js "/files/1_a.png"); media_meta := None;
            created_at := 10 |} ] |}.

(** ** Vocabulary of the statements *)

(** The connections of [wsClients] registered for conversation [c]. *)
Definition registered_for (c : jsstring) (m : Mem) : list WsClient :=
  filter (fun x => jsstring_eqb (conversationId x) c) (wsClients m).

(** One [send] of [frame] per client of [l], as the trace records it. *)
Definition calls_for (m : Mem) (frame : jsstring) (l : list WsClient)
  : list SendCall :=
  map (fun c => {| call_socket := socket c; call_frame := frame;
                   call_threw := existsb (Nat.eqb (socket c)) (failing m) |}) l.

Definition log_calls (m : Mem) (calls : list SendCall) : Mem :=
  {| wsClients := wsClients m; next_ref := next_ref m;
     listeners := listeners m; sent := sent m ++ calls;
     closed := closed m; failing := failing m |}.

(** How many of [calls] went to the send handle [s]. *)
Definition calls_on (s : nat) (calls : list SendCall) : nat :=
  List.length (filter (fun k => Nat.eqb (call_socket k) s) calls).

(** The wire event of a stored message, field by field from the row. *)
Definition event_of_row (r : MessageRow) : JsVal :=
  JObj [ (js "event", JStr (js "message:new"));
         (js "data",
          JObj [ (js "id", JStr (msg_id r));
                 (js "conversationId", JStr (conversation_id r));
                 (js "senderId", JStr (sender_id r));
                 (js "type", JStr (MsgType_name (msg_type r)));
                 (js "text", match msg_text r with
                             | Some t => JStr t | None => JNull end);
                 (js "mediaUrl", match media_url r with
                                 | Some u => JStr u | None => JNull end);
                 (js "mediaMeta", match media_meta r with
                                  | Some v => v | None => JNull end) ]) ].

(** [ev.data[key]] *)
Definition event_data (key : jsstring) (ev : JsVal) : option JsVal :=
  match ev with
  | JObj props =>
      match get_prop (js "data") props with
      | Some (JObj fields) => get_prop key fields
      | _ => None
      end
  | _ => None
  end.

(** The row [POST /messages] stores for [data] sent by [uid]. *)
Definition stored_row (fresh : jsstring * Z) (data : SendData)
    (uid : jsstring) : MessageRow :=
  {| msg_id := fst fresh; conversation_id := d_conversationId data;
     sender_id := uid; msg_type := d_type data;
     msg_text := sql_text (str_or_null (d_text data));
     media_url := sql_text (str_or_null (d_mediaUrl data));
     media_meta := sql_json (any_or_null (d_mediaMeta data));
     created_at := snd fresh |}.

Definition whitespace_only (s : jsstring) : Prop :=
  Forall (fun c => is_js_space c = true) s.

Definition by_created_at (a b : MessageRow) : Prop :=
  (created_at a <= created_at b)%Z.

(** The WebSocket handler run with nothing scheduled in between. *)
Definition ws_run (P : Platform) (fresh : jsstring * Z) (sock : nat)
    (req : WsReq) (d : Db) (m : Mem) : Db * Mem * option Reply :=
  let (m1, p) := ws_handler P sock req m in run_alone fresh p d m1.

(** The four checks of the handshake, passed by user [u] for conversation
    [c]: a token was supplied, it verifies as [u], a conversation identifier
    was supplied, and [u] is a participant of it. *)
Definition handshake_ok (P : Platform) (d : Db) (req : WsReq)
    (u c : jsstring) : Prop :=
  exists tok payload,
    ws_token req = Some tok /\ tok <> []
    /\ jwt_verify P tok = Some payload /\ payload_uid payload = u
    /\ query_conversationId req = Some c /\ c <> []
    /\ isParticipant d c u = true.

Definition registered (u c : jsstring) (sock : nat) (m : Mem) : Mem :=
  socket_on_close sock (new_client u c sock m)
    (wsClients_push (new_client u c sock m) m).

(** ** Invariants of the event loop: definitions *)

Definition store_of (cs : list ConversationRow) : Db :=
  {| conversations := cs; messages := [] |}.

(** Client objects are distinct, their identities below the allocator, and
    each one belongs to a participant of its conversation. *)
Definition MemInv (cs : list ConversationRow) (m : Mem) : Prop :=
  Forall (fun c => (ref c < next_ref m)%nat) (wsClients m)
  /\ NoDup (map ref (wsClients m))
  /\ Forall (fun c => isParticipant (store_of cs) (conversationId c) (uid c)
                      = true) (wsClients m).

(** What one segment of a task of origin [o] may do to memory: keep the
    invariant, and either leave [wsClients] alone or push one client on the
    socket of its own connection and finish. *)
Definition seg_ok (cs : list ConversationRow) (o : Origin) (m : Mem)
    (r : Mem * Prog) : Prop :=
  MemInv cs (fst r)
  /\ (wsClients (fst r) = wsClients m
      \/ exists c, o = Ws (socket c)
                   /\ wsClients (fst r) = wsClients m ++ [c]
                   /\ snd r = Finish None).

Fixpoint good (cs : list ConversationRow) (o : Origin) (p : Prog) : Prop :=
  match p with
  | Finish _ => True
  | AwaitParticipant c u k =>
      forall m, MemInv cs m ->
        seg_ok cs o m (k (q_select_participant (store_of cs) c u) m)
        /\ good cs o (snd (k (q_select_participant (store_of cs) c u) m))
  | AwaitHistory _ k =>
      forall rows m, MemInv cs m ->
        seg_ok cs o m (k rows m) /\ good cs o (snd (k rows m))
  | AwaitInsert _ _ _ _ _ _ k =>
      forall rows m, MemInv cs m ->
        seg_ok cs o m (k rows m) /\ good cs o (snd (k rows m))
  end.

Definition good_task (cs : list ConversationRow) (t : Task) : Prop :=
  match state t with
  | Runnable k =>
      forall m, MemInv cs m ->
        seg_ok cs (origin t) m (k m) /\ good cs (origin t) (snd (k m))
  | Suspended p => good cs (origin t) p
  end.

(** The sockets of the WebSocket tasks of a pool. *)
Definition owners (l : list Task) : list nat :=
  flat_map (fun t => match origin t with Ws s => [s] | Http => [] end) l.

Definition SysInv (s : Sys) : Prop :=
  MemInv (conversations (db s)) (mem s)
  /\ Forall (good_task (conversations (db s))) (pool s)
  /\ NoDup (owners (pool s))
  /\ Forall (fun x => (x < next_sock s)%nat) (owners (pool s))
  /\ NoDup (map socket (wsClients (mem s)))
  /\ Forall (fun c => exists t, In t (pool s) /\ origin t = Ws (socket c)
                                /\ state t = Suspended (Finish None))
       (wsClients (mem s)).

(** [m'] has the allocator of [m] and a sub-sequence of its clients. *)
Definition shrinks (m m' : Mem) : Prop :=
  next_ref m' = next_ref m
  /\ (forall Q : WsClient -> Prop,
        Forall Q (wsClients m) -> Forall Q (wsClients m'))
  /\ (forall f : WsClient -> nat,
        NoDup (map f (wsClients m)) -> NoDup (map f (wsClients m'))).

(** No client of [wsClients] is the object [c]. *)
Definition absent (c : WsClient) (m : Mem) : Prop :=
  Forall (fun x => ref x <> ref c) (wsClients m).

(** ** [POST /upload], chat.ts lines 131-165

    The uploads directory is a listing from file name to bytes; [fullPath]
    is the entry [safeName] of that directory. *)

(** One code unit against the class [a-zA-Z0-9._-]. *)
Definition is_safe_char (c : N) : bool :=
  ((97 <=? c) && (c <=? 122) || (65 <=? c) && (c <=? 90)
   || (48 <=? c) && (c <=? 57) || (c =? 46) || (c =? 95) || (c =? 45))%N.

(** [filename.replace(/[^a-zA-Z0-9._-]/g, "_")] *)
Definition sanitize (filename : jsstring) : jsstring :=
  map (fun c => if is_safe_char c then c else 95%N) filename.

(** A non-negative integer in a template literal: its decimal digits. *)
Definition decimal (n : N) : jsstring :=
  js (NilEmpty.string_of_uint (N.to_uint n)).

(** [`${Date.now()}_${mp.filename.replace(...)}`] *)
Definition safeName (now : N) (filename : jsstring) : jsstring :=
  decimal now ++ js "_" ++ sanitize filename.

(** The file part [req.file()] yields: the bytes its stream delivers, and
    whether the pipe then ends in ['error'] instead of ['finish']. *)
Record FilePart := {
  filename : jsstring;
  mimetype : jsstring;
  file_bytes : list N;
  pipe_fails : bool
}.

Record UploadReq := {
  up_http : HttpReq;
  up_file : option FilePart
}.

Definition Uploads := list (jsstring * list N).

Fixpoint read_file (name : jsstring) (dir : Uploads) : option (list N) :=
  match dir with
  | [] => None
  | (n, bytes) :: rest =>
      if jsstring_eqb n name then Some bytes else read_file name rest
  end.

(** [fs.createWriteStream(fullPath)] fed with [bytes]: the file is created
    or replaced. *)
Definition write_file (name : jsstring) (bytes : list N) (dir : Uploads)
  : Uploads :=
  (name, bytes) :: filter (fun e => negb (jsstring_eqb (fst e) name)) dir.

Inductive UploadReply :=
| UploadUnauthenticated                  (* 401 *)
| UploadMissingFile                      (* 400 { message: "Arquivo ausente" } *)
| UploadFailed                           (* 500, the promise was rejected *)
| Uploaded (mediaUrl : jsstring) (mediaMeta : JsVal).

Definition upload_meta (mp : FilePart) (uid : jsstring) : JsVal :=
  JObj [ (js "filename", JStr (filename mp));
         (js "mime", JStr (mimetype mp));
         (js "uploadedBy", JStr uid) ].

Definition post_upload (P : Platform) (now : N) (req : UploadReq)
    (dir : Uploads) : Uploads * UploadReply :=
  match req_jwtVerify P (up_http req) with
  | None => (dir, UploadUnauthenticated)
  | Some user =>
      let uid := payload_uid user in
      match up_file req with
      | None => (dir, UploadMissingFile)
      | Some mp =>
          let name := safeName now (filename mp) in
          let dir' := write_file name (file_bytes mp) dir in
          if pipe_fails mp then (dir', UploadFailed)
          else (dir', Uploaded (js "/files/" ++ name) (upload_meta mp uid))
      end
  end.

(** ** [POST /auth/login], auth.ts lines 8-94 *)

Record UserRow := {
  user_id : jsstring;
  user_key : jsstring;
  display_name : jsstring;
  user_username : option jsstring;       (* None is SQL NULL *)
  password_hash : option jsstring
}.

(** [bcrypt.compare] and [reply.jwtSign] are taken as given. *)
Record AuthPlatform := {
  bcrypt_compare : jsstring -> jsstring -> bool;
  jwtSign : JsVal -> jsstring
}.

(** What [LoginBody.safeParse] yields: the first member of the union that
    accepts the body. *)
Inductive LoginData :=
| PasswordLogin (username password : jsstring)
| KeyLogin (userKey : jsstring).

(** [z.string().min(1)] *)
Definition z_string_min1 (v : option JsVal) : option jsstring :=
  match z_string v with
  | Some s => if truthy s then Some s else None
  | None => None
  end.

(** [z.enum(["me", "parceiro"])] *)
Definition z_enum_userKey (v : option JsVal) : option jsstring :=
  match z_string v with
  | Some s =>
      if jsstring_eqb s (js "me") || jsstring_eqb s (js "parceiro")
      then Some s else None
  | None => None
  end.

Definition LoginBody_safeParse (b : option JsVal) : option LoginData :=
  match b with
  | Some (JObj props) =>
      match z_string_min1 (get_prop (js "username") props),
            z_string_min1 (get_prop (js "password") props) with
      | Some u, Some p => Some (PasswordLogin u p)
      | _, _ =>
          match z_enum_userKey (get_prop (js "userKey") props) with
          | Some k => Some (KeyLogin k)
          | None => None
          end
      end
  | _ => None
  end.

(** Modelled from the spec: the answer of the store ([db.ts] is missing) to
    [select id, username, password_hash from users where username=$1 limit 1]. *)
Definition q_user_by_username (users : list UserRow) (username : jsstring)
  : list UserRow :=
  firstn 1
    (filter (fun r => match user_username r with
                      | Some n => jsstring_eqb n username
                      | None => false
                      end) users).

(** Modelled from the spec: the answer of the store ([db.ts] is missing) to
    [select id, user_key, display_name, username from users
      where user_key=$1 limit 1]. *)
Definition q_user_by_key (users : list UserRow) (userKey : jsstring)
  : list UserRow :=
  firstn 1 (filter (fun r => jsstring_eqb (user_key r) userKey) users).

Inductive LoginReply :=
| LoginInvalid                 (* 400 { message: "Dados inválidos" } *)
| LoginBadCredentials          (* 401 { message: "Credenciais inválidas" } *)
| LoginNoMockUser              (* 401 { message: "Usuário mockado não existe no banco" } *)
| LoggedIn (token : jsstring) (user : JsVal).

(** [user.username ?? user.user_key] *)
Definition username_or_key (user : UserRow) : jsstring :=
  match user_username user with Some n => n | None => user_key user end.

Definition password_payload (user : UserRow) : JsVal :=
  JObj [ (js "uid", JStr (user_id user));
         (js "username", str_or_null (user_username user)) ].

Definition key_payload (user : UserRow) : JsVal :=
  JObj [ (js "uid", JStr (user_id user));
         (js "userKey", JStr (user_key user));
         (js "username", JStr (username_or_key user));
         (js "name", JStr (display_name user)) ].

Definition auth_login (A : AuthPlatform) (users : list UserRow)
    (b : option JsVal) : LoginReply :=
  match LoginBody_safeParse b with
  | None => LoginInvalid
  | Some (PasswordLogin username password) =>
      match q_user_by_username users username with
      | [] => LoginBadCredentials
      | user :: _ =>
          if negb (truthy_opt (password_hash user)) then LoginBadCredentials
          else
            match password_hash user with
            | None => LoginBadCredentials
            | Some hash =>
                if negb (bcrypt_compare A password hash)
                then LoginBadCredentials
                else
                  LoggedIn (jwtSign A (password_payload user))
                    (JObj [ (js "id", JStr (user_id user));
                            (js "username",
                             str_or_null (user_username user)) ])
            end
      end
  | Some (KeyLogin userKey) =>
      match q_user_by_key users userKey with
      | [] => LoginNoMockUser
      | user :: _ =>
          LoggedIn (jwtSign A (key_payload user))
            (JObj [ (js "id", JStr (user_id user));
                    (js "username", JStr (username_or_key user));
                    (js "name", JStr (display_name user)) ])
      end
  end.


(** ** Vocabulary and examples for uploads and login *)

Definition is_digit (c : N) : Prop := (48 <= c <= 57)%N.

Definition demo_part : FilePart :=
  {| filename := js "my cat.png"; mimetype := js "image/png";
     file_bytes := [137; 80; 78; 71]%N; pipe_fails := false |}.


Definition demo_upload (tok : string) (mp : FilePart) : UploadReq :=
  {| up_http := post_req tok body_hi; up_file := Some mp |}.

Definition demo_dir : Uploads :=
  [ (js "1700000000000_my_cat.png", [1; 2; 3]%N);
    (js "1600000000000_notes.txt", [104; 105]%N) ].

Definition body_uploaded : JsVal :=
  JObj [ field "conversationId" "11111111-1111-4111-8111-111111111111";
         field "type" "image";
         field "mediaUrl" "/files/1700000000000_my_cat.png";
         (js "mediaMeta", upload_meta demo_part (js "U1")) ].

Definition uid_of_payload (pl : JsVal) : jsstring :=
  match pl with
  | JObj props =>
      match get_prop (js "uid") props with Some (JStr u) => u | _ => [] end
  | _ => []
  end.

(** The demo signer writes the token the demo verifier reads; the demo
    hash of a password is ["hash:"] followed by it. *)
Definition demo_auth : AuthPlatform :=
  {| bcrypt_compare := fun pw h => jsstring_eqb (js "hash:" ++ pw) h;
     jwtSign := fun pl => js "tok:" ++ uid_of_payload pl |}.

Definition demo_users : list UserRow :=
  [ {| user_id := js "U1"; user_key := js "me"; display_name := js "Ana";
       user_username := Some (js "ana");
       password_hash := Some (js "hash:secret") |};
    {| user_id := js "U2"; user_key := js "parceiro";
       display_name := js "Bia"; user_username := None;
       password_hash := None |} ].

Definition login_body (fields : list (jsstring * JsVal)) : option JsVal :=
  Some (JObj fields).

(** The public part of the user a login answers with. *)
Definition password_user (user : UserRow) : JsVal :=
  JObj [ (js "id", JStr (user_id user));
         (js "username", str_or_null (user_username user)) ].

Definition key_user (user : UserRow) : JsVal :=
  JObj [ (js "id", JStr (user_id user));
         (js "username", JStr (username_or_key user));
         (js "name", JStr (display_name user)) ].

(** How many stored messages of conversation [c] are strictly older than
    time [t]. *)
Definition older_in (d : Db) (c : jsstring) (t : Z) : nat :=
  List.length
    (filter (fun x => jsstring_eqb (conversation_id x) c
                      && (created_at x <? t)%Z) (messages d)).

(** How many stored messages conversation [c] has. *)
Definition count_in (d : Db) (c : jsstring) : nat :=
  List.length
    (filter (fun x => jsstring_eqb (conversation_id x) c) (messages d)).

(** A conversation of [n] text messages sent one millisecond apart. *)
Definition demo_long_db (n : nat) : Db :=
  {| conversations := conversations demo_db;
     messages :=
       map (fun i => {| msg_id := decimal (N.of_nat i); conversation_id := c1;
                        sender_id := js "U1"; msg_type := TText;
                        msg_text := Some (js "x"); media_url := None;
                        media_meta := None; created_at := Z.of_nat i |})
           (seq 0 n) |}.

(** ** Vocabulary for the life of a connection *)

(** What one handler segment does to the process memory: nothing, a series
    of [send] calls, one [close] call, or one registration. *)
Inductive seg_shape (m : Mem) : Mem -> Prop :=
| shape_idle : seg_shape m m
| shape_sends calls : seg_shape m (log_calls m calls)
| shape_close sock : seg_shape m (socket_close sock m)
| shape_register u c sock : seg_shape m (registered u c sock m).

Fixpoint shaped (p : Prog) : Prop :=
  match p with
  | Finish _ => True
  | AwaitParticipant _ _ k =>
      forall rows m, seg_shape m (fst (k rows m)) /\ shaped (snd (k rows m))
  | AwaitHistory _ k =>
      forall rows m, seg_shape m (fst (k rows m)) /\ shaped (snd (k rows m))
  | AwaitInsert _ _ _ _ _ _ k =>
      forall rows m, seg_shape m (fst (k rows m)) /\ shaped (snd (k rows m))
  end.

Definition shaped_task (t : Task) : Prop :=
  match state t with
  | Runnable k => forall m, seg_shape m (fst (k m)) /\ shaped (snd (k m))
  | Suspended p => shaped p
  end.

(** Every registered client has its ['close'] callback on its socket. *)
Definition listening (m : Mem) : Prop :=
  Forall (fun c => In (socket c, c) (listeners m)) (wsClients m).

(** [m'] extends [m]: the registry, the traces and the listeners of [m]
    are prefixes of those of [m']. *)
Definition grows (m m' : Mem) : Prop :=
  (exists l, wsClients m' = wsClients m ++ l)
  /\ (exists l, sent m' = sent m ++ l)
  /\ (exists l, closed m' = closed m ++ l)
  /\ (exists l, listeners m' = listeners m ++ l).

Definition is_close_event (e : Event) : bool :=
  match e with SocketCloses _ => true | _ => false end.

(** The demo server while U2's handshake waits for the membership
    answer. *)
Definition demo_waiting : Sys :=
  run_events demo (initial demo_db)
    [WsConnect (ws_query "tok:U2" "11111111-1111-4111-8111-111111111111");
     Resume 0].

(** ** Vocabulary for what gets stored and sent *)

(** The row the insert of [POST /messages] adds for its six parameters. *)
Definition inserted_row (fresh : jsstring * Z) (c u : jsstring) (t : MsgType)
    (x mu mm : JsVal) : MessageRow :=
  {| msg_id := fst fresh; conversation_id := c; sender_id := u;
     msg_type := t; msg_text := sql_text x; media_url := sql_text mu;
     media_meta := sql_json mm; created_at := snd fresh |}.

(** A row whose sender is a participant of its conversation and whose
    content fits its type: text that is not blank, or a media reference. *)
Definition valid_row (cs : list ConversationRow) (r : MessageRow) : Prop :=
  isParticipant (store_of cs) (conversation_id r) (sender_id r) = true
  /\ match msg_type r with
     | TText => exists t, msg_text r = Some t /\ ~ whitespace_only t
     | _ => exists u, media_url r = Some u /\ u <> []
     end.

(** Every insert a program may still issue adds a valid row. *)
Fixpoint inserts_valid (cs : list ConversationRow) (p : Prog) : Prop :=
  match p with
  | Finish _ => True
  | AwaitParticipant c u k =>
      forall m,
        inserts_valid cs (snd (k (q_select_participant (store_of cs) c u) m))
  | AwaitHistory _ k => forall rows m, inserts_valid cs (snd (k rows m))
  | AwaitInsert c u t x mu mm k =>
      (forall fresh, valid_row cs (inserted_row fresh c u t x mu mm))
      /\ forall rows m, inserts_valid cs (snd (k rows m))
  end.

Definition task_inserts_valid (cs : list ConversationRow) (t : Task) : Prop :=
  match state t with
  | Runnable k => forall m, inserts_valid cs (snd (k m))
  | Suspended p => inserts_valid cs p
  end.

(** The frame of a [send] call is the event of one of the rows [msgs]. *)
Definition frame_of_stored (P : Platform) (msgs : list MessageRow)
    (k : SendCall) : Prop :=
  exists r, In r msgs /\ call_frame k = JSON_stringify P (event_of_row r).

(** A program sends nothing before its insert is answered, and then only
    the event of the row that insert added. *)
Fixpoint sends_stored (P : Platform) (p : Prog) : Prop :=
  match p with
  | Finish _ => True
  | AwaitParticipant _ _ k =>
      forall rows m,
        sent (fst (k rows m)) = sent m /\ sends_stored P (snd (k rows m))
  | AwaitHistory _ k =>
      forall rows m,
        sent (fst (k rows m)) = sent m /\ sends_stored P (snd (k rows m))
  | AwaitInsert c u t x mu mm k =>
      forall fresh m,
        exists calls,
          sent (fst (k [fst fresh] m)) = sent m ++ calls
          /\ Forall (fun call =>
                       call_frame call
                       = JSON_stringify P
                           (event_of_row (inserted_row fresh c u t x mu mm)))
                    calls
          /\ sends_stored P (snd (k [fst fresh] m))
  end.

Definition task_sends_stored (P : Platform) (msgs : list MessageRow)
    (t : Task) : Prop :=
  match state t with
  | Runnable k =>
      forall m, exists calls,
        sent (fst (k m)) = sent m ++ calls
        /\ Forall (frame_of_stored P msgs) calls
        /\ sends_stored P (snd (k m))
  | Suspended p => sends_stored P p
  end.

(** The demo server after U1 has sent [" hi "] on [c1]. *)
Definition demo_chat : Sys :=
  run_events demo demo_state
    [HttpPostMessages (post_req "tok:U1" body_hi);
     StoreAnswers 4 ([], 0%Z); Resume 4;
     StoreAnswers 4 (js "m9", 7%Z); Resume 4].

(** * Properties *)

(** ** Strings and rows *)

Lemma jsstring_eqb_eq (a b : jsstring) : jsstring_eqb a b = true <-> a = b.
Proof.
  revert b; induction a as [|x a IH]; intros [|y b]; simpl;
    try (split; [discriminate | discriminate]); try tauto.
  rewrite andb_true_iff, N.eqb_eq, IH.
  split; [intros [-> ->]; reflexivity | intros H; injection H; auto].
Qed.

Lemma jsstring_eqb_refl (a : jsstring) : jsstring_eqb a a = true.
Proof. apply jsstring_eqb_eq; reflexivity. Qed.

Lemma jsstring_eqb_neq (a b : jsstring) : jsstring_eqb a b = false <-> a <> b.
Proof.
  rewrite <- jsstring_eqb_eq. destruct (jsstring_eqb a b); split; congruence.
Qed.

Lemma first_ok_select (d : Db) (c u : jsstring) :
  first_ok (q_select_participant d c u) = true <->
  exists r, In r (conversations d) /\ conv_id r = c
            /\ (user_a_id r = u \/ user_b_id r = u).
Proof.
  unfold first_ok, q_select_participant.
  set (f := fun r : ConversationRow => (jsstring_eqb (conv_id r) c && _)%bool).
  assert (Hf : forall r, f r = true <->
             conv_id r = c /\ (user_a_id r = u \/ user_b_id r = u)).
  { intros r; unfold f; cbv beta.
    rewrite andb_true_iff, orb_true_iff, !jsstring_eqb_eq; tauto. }
  destruct (filter f (conversations d)) as [|r rest] eqn:E; simpl.
  - split; [discriminate|].
    intros (r & Hin & Hr). exfalso.
    assert (In r (filter f (conversations d))) as Hr'
      by (apply filter_In; split; [assumption | apply Hf; assumption]).
    rewrite E in Hr'; exact Hr'.
  - split; [intros _ | reflexivity].
    assert (In r (filter f (conversations d))) as Hr
      by (rewrite E; left; reflexivity).
    apply filter_In in Hr as [Hin Hr]. exists r; split; [assumption|].
    apply Hf; assumption.
Qed.

(** C6: [isParticipant] answers true exactly when some stored conversation
    has the given identifier and the user as one of its two participants; for
    an identifier no stored conversation carries it answers [false], a plain
    boolean. *)
Theorem isParticipant_iff (d : Db) (c u : jsstring) :
  (isParticipant d c u = true <->
   exists r, In r (conversations d) /\ conv_id r = c
             /\ (user_a_id r = u \/ user_b_id r = u))
  /\ ((forall r, In r (conversations d) -> conv_id r <> c) ->
      isParticipant d c u = false).
Proof.
  split; [apply first_ok_select|].
  intros Hno. destruct (isParticipant d c u) eqn:E; [|reflexivity].
  apply first_ok_select in E as (r & Hin & Hc & _).
  exfalso; exact (Hno r Hin Hc).
Qed.

Lemma isParticipant_iff_witness :
  isParticipant demo_db c1 (js "U2") = true
  /\ isParticipant demo_db c1 (js "U4") = false
  /\ isParticipant demo_db (js "nowhere") (js "U1") = false.
Proof.
  split; [|split].
  - apply (proj1 (isParticipant_iff demo_db c1 (js "U2"))).
    eexists; split; [left; reflexivity|]. split; [reflexivity | right; reflexivity].
  - reflexivity.
  - apply (proj2 (isParticipant_iff demo_db (js "nowhere") (js "U1"))).
    intros r [<-|[<-|[]]]; simpl; discriminate.
Defined.

(** ** The history query *)

Lemma insert_by_created_at_perm (m : MessageRow) (l : list MessageRow) :
  Permutation (m :: l) (insert_by_created_at m l).
Proof.
  induction l as [|x l IH]; simpl; [reflexivity|].
  destruct (created_at m <=? created_at x)%Z; [reflexivity|].
  rewrite perm_swap. apply perm_skip, IH.
Qed.

Lemma order_by_created_at_perm (l : list MessageRow) :
  Permutation l (order_by_created_at l).
Proof.
  induction l as [|x l IH]; simpl; [reflexivity|].
  rewrite <- insert_by_created_at_perm. apply perm_skip, IH.
Qed.

Lemma insert_by_created_at_sorted (m : MessageRow) (l : list MessageRow) :
  StronglySorted by_created_at l ->
  StronglySorted by_created_at (insert_by_created_at m l).
Proof.
  induction 1 as [|x l Hs IH Hx]; simpl.
  - repeat constructor.
  - destruct (created_at m <=? created_at x)%Z eqn:E.
    + apply Z.leb_le in E. constructor; [constructor; assumption|].
      constructor; [exact E|].
      eapply Forall_impl; [|exact Hx].
      unfold by_created_at; intros; lia.
    + apply Z.leb_gt in E. constructor; [exact IH|].
      eapply Permutation_Forall; [apply insert_by_created_at_perm|].
      constructor; [unfold by_created_at; lia | exact Hx].
Qed.

Lemma order_by_created_at_sorted (l : list MessageRow) :
  StronglySorted by_created_at (order_by_created_at l).
Proof.
  induction l; simpl; [constructor | apply insert_by_created_at_sorted; assumption].
Qed.

Lemma StronglySorted_firstn (A : Type) (R : A -> A -> Prop) (n : nat)
    (l : list A) :
  StronglySorted R l -> StronglySorted R (firstn n l).
Proof.
  intros H; revert n; induction H as [|x l Hs IH Hx]; intros [|n]; simpl;
    try constructor.
  - apply IH.
  - clear -Hx. revert n; induction Hx; intros [|n]; simpl; constructor; auto.
Qed.

Lemma StronglySorted_map (A B : Type) (R : A -> A -> Prop)
    (S : B -> B -> Prop) (f : A -> B) (l : list A) :
  (forall a b, R a b -> S (f a) (f b)) ->
  StronglySorted R l -> StronglySorted S (map f l).
Proof.
  intros HRS; induction 1 as [|x l Hs IH Hx]; simpl; constructor; auto.
  rewrite Forall_map. eapply Forall_impl; [|exact Hx]. intros; auto.
Qed.

Lemma In_firstn (A : Type) (n : nat) (l : list A) (x : A) :
  In x (firstn n l) -> In x l.
Proof.
  revert l; induction n; intros [|y l]; simpl; try tauto.
  intros [->|H]; auto.
Qed.

(** What the history query returns: at most 500 rows, oldest first, each
    the projection of a stored message of that conversation. *)
Lemma q_select_history_spec (d : Db) (c : jsstring) :
  (List.length (q_select_history d c) <= 500)%nat
  /\ StronglySorted (fun a b => (h_createdAt a <= h_createdAt b)%Z)
       (q_select_history d c)
  /\ Forall (fun r => exists m, In m (messages d) /\ conversation_id m = c
                               /\ r = history_row m)
       (q_select_history d c).
Proof.
  unfold q_select_history. split; [|split].
  - rewrite length_map. apply firstn_le_length.
  - apply StronglySorted_map with (R := by_created_at); [auto|].
    apply StronglySorted_firstn, order_by_created_at_sorted.
  - rewrite Forall_map, Forall_forall. intros m Hm. exists m.
    apply In_firstn in Hm.
    apply (Permutation_in _ (Permutation_sym (order_by_created_at_perm _))) in Hm.
    apply filter_In in Hm as [Hin Hc]. apply jsstring_eqb_eq in Hc. auto.
Qed.

(** ** Trimming *)

Lemma trimStart_nil_iff (s : jsstring) : trimStart s = [] <-> whitespace_only s.
Proof.
  unfold whitespace_only; induction s as [|c s IH]; simpl.
  - split; [constructor | reflexivity].
  - destruct (is_js_space c) eqn:E.
    + rewrite IH. split; [constructor; assumption | inversion 1; assumption].
    + split; [discriminate | inversion 1; congruence].
Qed.

Lemma trimStart_head (s t : jsstring) (c : N) :
  trimStart s = c :: t -> is_js_space c = false.
Proof.
  induction s as [|y s IH]; simpl; [discriminate|].
  destruct (is_js_space y) eqn:Ey; [exact IH|].
  intros H; injection H as -> _; exact Ey.
Qed.

Lemma trim_nil_iff (s : jsstring) : trim s = [] <-> whitespace_only s.
Proof.
  unfold trim, trimEnd. split.
  - intros H. apply trimStart_nil_iff.
    destruct (trimStart s) as [|c t] eqn:E; [reflexivity|]. exfalso.
    assert (H' : trimStart (rev (c :: t)) = []).
    { destruct (trimStart (rev (c :: t))) as [|x l]; [reflexivity|].
      simpl in H. destruct (rev l); discriminate. }
    apply trimStart_nil_iff in H'. unfold whitespace_only in H'.
    apply Forall_rev in H'. rewrite rev_involutive in H'.
    inversion H' as [|? ? Hc _]; subst.
    rewrite (trimStart_head _ E) in Hc. discriminate.
  - intros H. apply trimStart_nil_iff in H. rewrite H. reflexivity.
Qed.

Lemma trim_truthy (s : jsstring) : truthy (trim s) = true -> truthy s = true.
Proof.
  destruct s; [|reflexivity]. discriminate.
Qed.

Section HandlerProperties.

Variable P : Platform.

(** ** The send-message body *)

Lemma safeParse_Some (b : option JsVal) (data : SendData) :
  SendMessageBody_safeParse P b = Some data <->
  exists props,
    b = Some (JObj props)
    /\ get_prop (js "conversationId") props = Some (JStr (d_conversationId data))
    /\ is_uuid P (d_conversationId data) = true
    /\ (exists name, get_prop (js "type") props = Some (JStr name)
                     /\ MsgType_of_name name = Some (d_type data))
    /\ z_string_optional (get_prop (js "text") props) = Some (d_text data)
    /\ z_string_optional (get_prop (js "mediaUrl") props) = Some (d_mediaUrl data)
    /\ get_prop (js "mediaMeta") props = d_mediaMeta data.
Proof.
  unfold SendMessageBody_safeParse, z_string_uuid, z_enum_type, z_string,
    z_any_optional.
  split.
  - destruct b as [[| | | | |props]|]; try discriminate.
    destruct (get_prop (js "conversationId") props) as [[| | |c| |]|] eqn:Ec;
      try discriminate.
    destruct (is_uuid P c) eqn:Eu; try discriminate.
    destruct (get_prop (js "type") props) as [[| | |name| |]|] eqn:En;
      try discriminate.
    destruct (MsgType_of_name name) as [t|] eqn:Et; try discriminate.
    destruct (z_string_optional (get_prop (js "text") props)) as [x|] eqn:Ex;
      try discriminate.
    destruct (z_string_optional (get_prop (js "mediaUrl") props)) as [u|] eqn:Em;
      try discriminate.
    intros H; injection H as <-; simpl.
    exists props. split; [reflexivity|]. split; [assumption|].
    split; [assumption|]. split; [exists name; auto|]. auto.
  - intros (props & -> & Hc & Hu & (name & Hn & Ht) & Hx & Hm & Hmm).
    rewrite Hc, Hu, Hn, Ht, Hx, Hm, Hmm. destruct data; reflexivity.
Qed.

Lemma z_string_optional_Some (v : option JsVal) (o : option jsstring) :
  z_string_optional v = Some o <->
  (v = None /\ o = None) \/ (exists s, v = Some (JStr s) /\ o = Some s).
Proof.
  destruct v as [[| | |s| |]|]; simpl; split;
    try discriminate;
    try (intros [[H _]|(s' & H & _)]; discriminate).
  - intros H; injection H as <-; right; eauto.
  - intros [[H _]|(s' & H & ->)]; [discriminate | congruence].
  - intros H; injection H as <-; left; auto.
  - intros [[_ ->]|(s' & H & _)]; [reflexivity | discriminate].
Qed.

(** ** The content check *)

Lemma check_content_text (data : SendData) :
  d_type data = TText ->
  (check_content data = Some TextRequired <->
   d_text data = None \/ exists t, d_text data = Some t /\ whitespace_only t)
  /\ (check_content data = None <->
      exists t, d_text data = Some t /\ ~ whitespace_only t).
Proof.
  intros Ht; unfold check_content; rewrite Ht.
  destruct (d_text data) as [t|].
  - assert (E : (negb (truthy t) || negb (truthy (trim t)))%bool = true
                <-> whitespace_only t).
    { rewrite <- trim_nil_iff. destruct (trim t) eqn:Et; simpl.
      - rewrite orb_true_r; tauto.
      - rewrite (trim_truthy t) by (rewrite Et; reflexivity). simpl.
        split; discriminate. }
    destruct (negb (truthy t) || negb (truthy (trim t)))%bool; split; split.
    + intros _; right; exists t; split; [reflexivity | apply E; reflexivity].
    + reflexivity.
    + discriminate.
    + intros (t' & Ht' & Hn); injection Ht' as <-. exfalso; apply Hn, E; reflexivity.
    + discriminate.
    + intros [H|(t' & Ht' & Hw)]; [discriminate|]. injection Ht' as <-.
      apply E in Hw; discriminate.
    + intros _; exists t; split; [reflexivity|]. intros Hw; apply E in Hw; discriminate.
    + reflexivity.
  - split; split; auto; try discriminate.
    intros (t & Ht' & _); discriminate.
Qed.

Lemma check_content_media (data : SendData) :
  d_type data <> TText ->
  (check_content data = Some MediaUrlRequired <->
   truthy_opt (d_mediaUrl data) = false)
  /\ (check_content data = None <-> truthy_opt (d_mediaUrl data) = true).
Proof.
  intros Ht; unfold check_content.
  destruct (d_type data); [congruence| | |];
    destruct (truthy_opt (d_mediaUrl data)); simpl; split; split;
      congruence.
Qed.

(** ** The broadcast *)

Lemma sql_text_str_or_null (o : option jsstring) :
  sql_text (str_or_null o) = o.
Proof. destruct o; reflexivity. Qed.

Lemma log_calls_nil (m : Mem) : log_calls m [] = m.
Proof. destruct m; unfold log_calls; simpl. rewrite app_nil_r. reflexivity. Qed.

Lemma log_calls_cons (m : Mem) (a : SendCall) (l : list SendCall) :
  log_calls (log_calls m [a]) l = log_calls m (a :: l).
Proof. unfold log_calls; simpl. rewrite <- app_assoc. reflexivity. Qed.

Lemma forEach_send_all (frame : jsstring) (l : list WsClient) (m : Mem) :
  forEach (fun c m' => try_catch_ignore (socket_send (socket c) frame m')) l m
  = (log_calls m (calls_for m frame l), Normal).
Proof.
  revert m; induction l as [|x l IH]; intros m; simpl.
  - rewrite log_calls_nil; reflexivity.
  - rewrite IH. f_equal. apply log_calls_cons.
Qed.

Lemma broadcast_spec (messageId : jsstring) (data : SendData) (uid : jsstring)
    (m : Mem) :
  broadcast P messageId data uid m
  = (log_calls m
       (calls_for m
          (JSON_stringify P
             (message_new_event messageId (d_conversationId data) uid
                (d_type data) (d_text data) (d_mediaUrl data)
                (d_mediaMeta data)))
          (registered_for (d_conversationId data) m)),
     Normal).
Proof. unfold broadcast. apply forEach_send_all. Qed.

Lemma event_of_stored_row (fresh : jsstring * Z) (data : SendData)
    (uid : jsstring) :
  message_new_event (fst fresh) (d_conversationId data) uid (d_type data)
    (d_text data) (d_mediaUrl data) (d_mediaMeta data)
  = event_of_row (stored_row fresh data uid).
Proof.
  unfold message_new_event, event_of_row, stored_row; simpl.
  rewrite !sql_text_str_or_null.
  destruct (d_text data), (d_mediaUrl data),
    (d_mediaMeta data) as [[| | | | |]|]; reflexivity.
Qed.

Lemma post_after_insert_spec (fresh : jsstring * Z) (data : SendData)
    (uid : jsstring) (m : Mem) :
  post_after_insert P data uid [fst fresh] m
  = (log_calls m
       (calls_for m (JSON_stringify P (event_of_row (stored_row fresh data uid)))
          (registered_for (d_conversationId data) m)),
     Finish (Some (Sent (fst fresh)))).
Proof.
  unfold post_after_insert. rewrite broadcast_spec, event_of_stored_row.
  reflexivity.
Qed.

Lemma calls_on_absent (m : Mem) (frame : jsstring) (s : nat)
    (l : list WsClient) :
  ~ In s (map socket l) -> calls_on s (calls_for m frame l) = 0.
Proof.
  unfold calls_on, calls_for. induction l as [|x l IH]; simpl; [reflexivity|].
  intros Hn. destruct (Nat.eqb_spec (socket x) s) as [E|E]; [tauto|].
  apply IH; tauto.
Qed.

Lemma calls_on_filter (m : Mem) (frame : jsstring) (f : WsClient -> bool)
    (l : list WsClient) (c : WsClient) :
  NoDup (map socket l) -> In c l ->
  calls_on (socket c) (calls_for m frame (filter f l)) = if f c then 1 else 0.
Proof.
  induction l as [|x l IH]; simpl; [tauto|].
  intros Hnd Hin. inversion Hnd as [|? ? Hx Hl]; subst.
  assert (Hsub : forall s, ~ In s (map socket l) ->
                           ~ In s (map socket (filter f l))).
  { intros s Hs Hs'. apply Hs. apply in_map_iff in Hs' as (y & <- & Hy).
    apply filter_In in Hy as [Hy _]. apply in_map; assumption. }
  destruct Hin as [->|Hin].
  - destruct (f c); simpl.
    + unfold calls_on in *; simpl. rewrite Nat.eqb_refl; simpl.
      f_equal. apply (calls_on_absent m frame), Hsub, Hx.
    + apply calls_on_absent, Hsub, Hx.
  - assert (Hne : socket x <> socket c).
    { intros E. apply Hx. rewrite E. apply in_map; assumption. }
    destruct (f x); simpl; [|apply IH; assumption].
    unfold calls_on in *; simpl.
    destruct (Nat.eqb_spec (socket x) (socket c)); [tauto|]. apply IH; assumption.
Qed.

(** ** [GET /conversations/:id/messages] *)

(** C7: a history fetch answers a caller who is not a participant with
    Forbidden and no message; otherwise it returns rows of the requested
    conversation only, at most 500 of them, oldest first. *)
Theorem history_fetch (req : HttpReq) (user : JwtPayload) (d : Db) (m : Mem)
    (fresh : jsstring * Z) :
  req_jwtVerify P req = Some user ->
  exists reply,
    run_alone fresh (get_conversation_messages P req) d m = (d, m, Some reply)
    /\ (isParticipant d (params_id req) (payload_uid user) = false ->
        reply = NoAccess /\ Forbidden reply)
    /\ (isParticipant d (params_id req) (payload_uid user) = true ->
        reply = Messages (q_select_history d (params_id req)))
    /\ (forall rows, reply = Messages rows ->
        (List.length rows <= 500)%nat
        /\ StronglySorted (fun a b => (h_createdAt a <= h_createdAt b)%Z) rows
        /\ Forall (fun r => exists msg, In msg (messages d)
                                       /\ conversation_id msg = params_id req
                                       /\ r = history_row msg) rows).
Proof.
  intros Hu. unfold get_conversation_messages; rewrite Hu. simpl.
  fold (isParticipant d (params_id req) (payload_uid user)).
  destruct (isParticipant d (params_id req) (payload_uid user)); simpl.
  - eexists; split; [reflexivity|]. split; [discriminate|].
    split; [reflexivity|]. intros rows H; injection H as <-.
    apply q_select_history_spec.
  - eexists; split; [reflexivity|]. split; [split; reflexivity|].
    split; [discriminate|]. discriminate.
Qed.

(** ** [POST /messages] *)

Lemma post_messages_run (req : HttpReq) (user : JwtPayload) (data : SendData)
    (d : Db) (m : Mem) (fresh : jsstring * Z) :
  req_jwtVerify P req = Some user ->
  SendMessageBody_safeParse P (body req) = Some data ->
  run_alone fresh (post_messages P req) d m
  = if isParticipant d (d_conversationId data) (payload_uid user) then
      match check_content data with
      | Some r => (d, m, Some r)
      | None =>
          ({| conversations := conversations d;
              messages := messages d ++ [stored_row fresh data (payload_uid user)] |},
           log_calls m
             (calls_for m
                (JSON_stringify P
                   (event_of_row (stored_row fresh data (payload_uid user))))
                (registered_for (d_conversationId data) m)),
           Some (Sent (fst fresh)))
      end
    else (d, m, Some NoAccess).
Proof.
  intros Hu Hp. unfold post_messages; rewrite Hu, Hp. simpl.
  fold (isParticipant d (d_conversationId data) (payload_uid user)).
  unfold post_after_participant.
  destruct (isParticipant d (d_conversationId data) (payload_uid user));
    simpl; [|reflexivity].
  destruct (check_content data); [reflexivity|].
  cbn [run_alone q_insert_message fst snd msg_id].
  rewrite post_after_insert_spec. reflexivity.
Qed.

(** C2: a sender who is not a participant of the target conversation gets
    Forbidden; the store and the process memory (hence the trace of sends)
    are what they were, and this holds at whatever memory the handler is
    resumed with the negative answer. *)
Theorem non_participant_is_refused (req : HttpReq) (user : JwtPayload)
    (data : SendData) (d : Db) (m : Mem) (fresh : jsstring * Z) :
  req_jwtVerify P req = Some user ->
  SendMessageBody_safeParse P (body req) = Some data ->
  isParticipant d (d_conversationId data) (payload_uid user) = false ->
  run_alone fresh (post_messages P req) d m = (d, m, Some NoAccess)
  /\ Forbidden NoAccess
  /\ (forall m', post_after_participant P data (payload_uid user)
                   (isParticipant d (d_conversationId data) (payload_uid user)) m'
                 = (m', Finish (Some NoAccess))).
Proof.
  intros Hu Hp Hn. split; [|split].
  - rewrite (post_messages_run req d m fresh Hu Hp), Hn. reflexivity.
  - reflexivity.
  - intros m'. rewrite Hn. reflexivity.
Qed.

(** C3: the checks of a send request run in a fixed order and the first
    one that fails decides the reply: the body schema (conversation
    identifier, type), then membership, then the content rule of the type. *)
Theorem validation_order (req : HttpReq) (user : JwtPayload) (d : Db)
    (m : Mem) (fresh : jsstring * Z) :
  req_jwtVerify P req = Some user ->
  let result := run_alone fresh (post_messages P req) d m in
  let uid := payload_uid user in
  (SendMessageBody_safeParse P (body req) = None ->
   result = (d, m, Some InvalidData) /\ InvalidInput InvalidData)
  /\ (forall props, body req = Some (JObj props) ->
      z_string_uuid P (get_prop (js "conversationId") props) = None
      \/ z_enum_type (get_prop (js "type") props) = None ->
      result = (d, m, Some InvalidData))
  /\ (forall data, SendMessageBody_safeParse P (body req) = Some data ->
      (isParticipant d (d_conversationId data) uid = false ->
       result = (d, m, Some NoAccess) /\ Forbidden NoAccess)
      /\ (isParticipant d (d_conversationId data) uid = true ->
          d_type data = TText ->
          d_text data = None
          \/ (exists t, d_text data = Some t /\ whitespace_only t) ->
          result = (d, m, Some TextRequired) /\ InvalidInput TextRequired)
      /\ (isParticipant d (d_conversationId data) uid = true ->
          d_type data <> TText ->
          truthy_opt (d_mediaUrl data) = false ->
          result = (d, m, Some MediaUrlRequired)
          /\ InvalidInput MediaUrlRequired)
      /\ (isParticipant d (d_conversationId data) uid = true ->
          (d_type data = TText /\
           exists t, d_text data = Some t /\ ~ whitespace_only t)
          \/ (d_type data <> TText /\ truthy_opt (d_mediaUrl data) = true) ->
          snd result = Some (Sent (fst fresh)))).
Proof.
  intros Hu result uid.
  assert (Hnone : SendMessageBody_safeParse P (body req) = None ->
                  result = (d, m, Some InvalidData)).
  { intros Hp. unfold result, post_messages. rewrite Hu, Hp. reflexivity. }
  split; [|split].
  - intros Hp; split; [auto | reflexivity].
  - intros props Hb Hbad. apply Hnone. rewrite Hb.
    unfold SendMessageBody_safeParse.
    destruct Hbad as [-> | ->]; [reflexivity|].
    destruct (z_string_uuid P _); reflexivity.
  - intros data Hp. unfold result.
    rewrite (post_messages_run req d m fresh Hu Hp). fold uid.
    split; [|split; [|split]].
    + intros ->. split; reflexivity.
    + intros -> Ht Hx.
      apply (proj1 (check_content_text data Ht)) in Hx. rewrite Hx.
      split; reflexivity.
    + intros -> Ht Hx.
      apply (proj1 (check_content_media data Ht)) in Hx. rewrite Hx.
      split; reflexivity.
    + intros -> [[Ht Hx]|[Ht Hx]].
      * apply (proj2 (check_content_text data Ht)) in Hx. rewrite Hx. reflexivity.
      * apply (proj2 (check_content_media data Ht)) in Hx. rewrite Hx. reflexivity.
Qed.

(** C5: whatever sockets fail to send, the code after the insert still
    calls [send] once for every connection registered for the conversation,
    in registry order, the ones that do not fail take the frame, the reply is
    the success reply carrying the stored identifier, and the stored row is
    in the store. *)
Theorem send_failure_is_contained (fresh : jsstring * Z) (data : SendData)
    (uid : jsstring) (d : Db) (m : Mem) :
  let stored :=
    q_insert_message d fresh (d_conversationId data) uid (d_type data)
      (str_or_null (d_text data)) (str_or_null (d_mediaUrl data))
      (any_or_null (d_mediaMeta data)) in
  let frame :=
    JSON_stringify P (event_of_row (stored_row fresh data uid)) in
  exists m',
    post_after_insert P data uid (snd stored) m
    = (m', Finish (Some (Sent (fst fresh))))
    /\ In (stored_row fresh data uid) (messages (fst stored))
    /\ sent m' = sent m
                 ++ calls_for m frame (registered_for (d_conversationId data) m)
    /\ (forall c, In c (registered_for (d_conversationId data) m) ->
        existsb (Nat.eqb (socket c)) (failing m) = false ->
        In {| call_socket := socket c; call_frame := frame;
              call_threw := false |} (sent m')).
Proof.
  intros stored frame. eexists. split; [|split; [|split]].
  - unfold stored; cbn [q_insert_message snd msg_id].
    apply post_after_insert_spec.
  - unfold stored; simpl. apply in_or_app; right; left; reflexivity.
  - reflexivity.
  - intros c Hc Hok. simpl. apply in_or_app; right.
    unfold calls_for. apply in_map_iff. exists c; split; [|assumption].
    rewrite Hok. reflexivity.
Qed.

(** C10: an accepted request stores and broadcasts the text exactly as the
    body carried it (and null when the body had none): trimming serves the
    check only. *)
Theorem accepted_text_is_verbatim (req : HttpReq) (user : JwtPayload)
    (data : SendData) (d : Db) (m : Mem) (fresh : jsstring * Z) :
  req_jwtVerify P req = Some user ->
  SendMessageBody_safeParse P (body req) = Some data ->
  isParticipant d (d_conversationId data) (payload_uid user) = true ->
  check_content data = None ->
  let row := stored_row fresh data (payload_uid user) in
  let ev := event_of_row row in
  run_alone fresh (post_messages P req) d m
  = ({| conversations := conversations d; messages := messages d ++ [row] |},
     log_calls m (calls_for m (JSON_stringify P ev)
                    (registered_for (d_conversationId data) m)),
     Some (Sent (msg_id row)))
  /\ exists props,
       body req = Some (JObj props)
       /\ ((get_prop (js "text") props = None
            /\ msg_text row = None
            /\ event_data (js "text") ev = Some JNull)
           \/ (exists t, get_prop (js "text") props = Some (JStr t)
                         /\ msg_text row = Some t
                         /\ event_data (js "text") ev = Some (JStr t))).
Proof.
  intros Hu Hp Hok Hc row ev.
  destruct (proj1 (safeParse_Some _ _) Hp)
    as (props & Hb & _ & _ & _ & Hx & _ & _).
  split.
  - rewrite (post_messages_run req d m fresh Hu Hp), Hok, Hc. reflexivity.
  - exists props. split; [exact Hb|].
    apply z_string_optional_Some in Hx as [[Hn Ho]|(t & Hn & Ho)].
    + left. split; [exact Hn|].
      unfold ev, row, event_of_row, stored_row; cbn [msg_text].
      rewrite Ho. split; reflexivity.
    + right. exists t. split; [exact Hn|].
      unfold ev, row, event_of_row, stored_row; cbn [msg_text].
      rewrite Ho. split; reflexivity.
Qed.

End HandlerProperties.

(** ** Invariants of the event loop *)

(** *** Lists *)

Lemma splice1_cons (A : Type) (i : nat) (x : A) (l : list A) :
  splice1 (S i) (x :: l) = x :: splice1 i l.
Proof. reflexivity. Qed.

Lemma splice1_In (A : Type) (i : nat) (l : list A) (x : A) :
  In x (splice1 i l) -> In x l.
Proof.
  revert i; induction l as [|y l IH]; intros [|i]; simpl; auto.
  intros [->|H]; [left; reflexivity | right; apply (IH i H)].
Qed.

Lemma splice1_Forall (A : Type) (Q : A -> Prop) (i : nat) (l : list A) :
  Forall Q l -> Forall Q (splice1 i l).
Proof.
  rewrite !Forall_forall. intros H x Hx. apply H, (splice1_In _ _ _ Hx).
Qed.

Lemma splice1_map (A B : Type) (f : A -> B) (i : nat) (l : list A) :
  map f (splice1 i l) = splice1 i (map f l).
Proof.
  unfold splice1. rewrite map_app, firstn_map, skipn_map. reflexivity.
Qed.

Lemma splice1_NoDup (A : Type) (i : nat) (l : list A) :
  NoDup l -> NoDup (splice1 i l).
Proof.
  revert i; induction l as [|y l IH]; intros [|i] H; simpl; auto.
  - inversion H; assumption.
  - inversion H as [|? ? Hy Hl]; subst.
    constructor; [|apply (IH i); assumption].
    intros Hin; apply Hy, (splice1_In i _ _ Hin).
Qed.

Lemma NoDup_snoc (A : Type) (l : list A) (x : A) :
  NoDup l -> ~ In x l -> NoDup (l ++ [x]).
Proof.
  induction l as [|y l IH]; simpl; intros Hl Hx.
  - constructor; [tauto | constructor].
  - inversion Hl as [|? ? Hy Hl']; subst. constructor.
    + rewrite in_app_iff; simpl. intros [H|[H|[]]]; [tauto|]. apply Hx; auto.
    + apply IH; [assumption | tauto].
Qed.

Lemma nth_error_set_nth (A : Type) (i : nat) (x y : A) (l : list A) :
  nth_error l i = Some y -> nth_error (set_nth i x l) i = Some x.
Proof.
  revert i; induction l as [|z l IH]; intros [|i]; simpl; try discriminate; auto.
Qed.

Lemma set_nth_In (A : Type) (i : nat) (x t : A) (l : list A) :
  In t (set_nth i x l) -> t = x \/ In t l.
Proof.
  revert i; induction l as [|z l IH]; intros [|i]; simpl; try tauto.
  - intros [->|H]; auto.
  - intros [->|H]; auto. destruct (IH _ H); auto.
Qed.

Lemma set_nth_In_self (A : Type) (i : nat) (x y : A) (l : list A) :
  nth_error l i = Some y -> In x (set_nth i x l).
Proof.
  intros H. eapply nth_error_In, nth_error_set_nth; exact H.
Qed.

Lemma set_nth_In_other (A : Type) (i : nat) (x y t : A) (l : list A) :
  nth_error l i = Some y -> In t l -> t <> y -> In t (set_nth i x l).
Proof.
  revert i; induction l as [|z l IH]; intros [|i]; simpl; try tauto.
  - intros H [->|Ht] Hne; [congruence | auto].
  - intros H [->|Ht] Hne; [auto | right; eauto].
Qed.

Lemma set_nth_Forall (A : Type) (Q : A -> Prop) (i : nat) (x : A)
    (l : list A) :
  Forall Q l -> Q x -> Forall Q (set_nth i x l).
Proof.
  intros Hl Hx. rewrite Forall_forall in *. intros t Ht.
  destruct (set_nth_In _ _ _ _ Ht) as [->|H]; auto.
Qed.

Lemma owners_app (l1 l2 : list Task) : owners (l1 ++ l2) = owners l1 ++ owners l2.
Proof. unfold owners. apply flat_map_app. Qed.

Lemma owners_set_nth (i : nat) (x y : Task) (l : list Task) :
  nth_error l i = Some y -> origin x = origin y ->
  owners (set_nth i x l) = owners l.
Proof.
  revert i; induction l as [|z l IH]; intros [|i]; simpl; try discriminate.
  - intros H E; injection H as ->. unfold owners; simpl. rewrite E; reflexivity.
  - intros H E. unfold owners in *; simpl. rewrite (IH _ H E); reflexivity.
Qed.

Lemma owners_In (l : list Task) (t : Task) (s : nat) :
  In t l -> origin t = Ws s -> In s (owners l).
Proof.
  intros Ht Ho. unfold owners. apply in_flat_map. exists t; split; [assumption|].
  rewrite Ho; left; reflexivity.
Qed.

Lemma owner_unique (l : list Task) (t1 t2 : Task) (s : nat) :
  NoDup (owners l) -> In t1 l -> In t2 l ->
  origin t1 = Ws s -> origin t2 = Ws s -> t1 = t2.
Proof.
  induction l as [|x l IH]; simpl; [tauto|].
  change (owners (x :: l)) with (owners [x] ++ owners l).
  intros Hnd H1 H2 O1 O2.
  assert (Hx : origin x = Ws s -> ~ In s (owners l)).
  { intros Ox Hs. unfold owners at 1 in Hnd; simpl in Hnd. rewrite Ox in Hnd.
    simpl in Hnd. inversion Hnd; auto. }
  assert (Hl : NoDup (owners l)).
  { apply NoDup_app_remove_l in Hnd; exact Hnd. }
  destruct H1 as [->|H1], H2 as [->|H2]; auto.
  - exfalso; apply (Hx O1), (owners_In _ _ H2 O2).
  - exfalso; apply (Hx O2), (owners_In _ _ H1 O1).
Qed.

(** *** Memory *)

Lemma shrinks_refl (m : Mem) : shrinks m m.
Proof. unfold shrinks; auto. Qed.

Lemma shrinks_trans (m1 m2 m3 : Mem) :
  shrinks m1 m2 -> shrinks m2 m3 -> shrinks m1 m3.
Proof.
  intros (E1 & F1 & N1) (E2 & F2 & N2). split; [congruence|]. split; auto.
Qed.

Lemma on_close_shrinks (c : WsClient) (m : Mem) : shrinks m (on_close c m).
Proof.
  unfold on_close. destruct (indexOf c (wsClients m) >=? 0)%Z;
    [|apply shrinks_refl].
  split; [reflexivity|]. split; simpl.
  - intros Q. apply splice1_Forall.
  - intros f. rewrite splice1_map. apply splice1_NoDup.
Qed.

Lemma close_listeners_shrinks (s : nat) (ls : list (nat * WsClient)) (m : Mem) :
  shrinks m (close_listeners s ls m).
Proof.
  revert m; induction ls as [|[s' c] ls IH]; intros m; simpl.
  - apply shrinks_refl.
  - destruct (Nat.eqb s' s); [|apply IH].
    eapply shrinks_trans; [apply on_close_shrinks | apply IH].
Qed.

Lemma emit_close_shrinks (s : nat) (m : Mem) : shrinks m (emit_close s m).
Proof. apply close_listeners_shrinks. Qed.

Lemma MemInv_shrinks (cs : list ConversationRow) (m m' : Mem) :
  shrinks m m' -> MemInv cs m -> MemInv cs m'.
Proof.
  intros (E & F & N) (H1 & H2 & H3). unfold MemInv. rewrite E.
  split; [apply F, H1|]. split; [apply N, H2 | apply F, H3].
Qed.

Lemma MemInv_same (cs : list ConversationRow) (m m' : Mem) :
  wsClients m' = wsClients m -> next_ref m' = next_ref m ->
  MemInv cs m -> MemInv cs m'.
Proof. unfold MemInv. intros -> ->. auto. Qed.

Lemma MemInv_push (cs : list ConversationRow) (m : Mem) (u c : jsstring)
    (s : nat) :
  MemInv cs m -> isParticipant (store_of cs) c u = true ->
  MemInv cs (socket_on_close s (new_client u c s m)
               (wsClients_push (new_client u c s m) m)).
Proof.
  intros (H1 & H2 & H3) Hp. unfold MemInv; simpl. split; [|split].
  - apply Forall_app; split.
    + eapply Forall_impl; [|exact H1]. intros; simpl in *; lia.
    + repeat constructor.
  - rewrite map_app; simpl. apply NoDup_snoc; [assumption|].
    intros Hin. apply in_map_iff in Hin as (x & Hx & Hin).
    rewrite Forall_forall in H1. specialize (H1 x Hin). lia.
  - apply Forall_app; split; [assumption|]. repeat constructor. exact Hp.
Qed.

(** *** The handlers keep the invariant *)

Section HandlersGood.

Variable P : Platform.
Variable cs : list ConversationRow.

Lemma seg_ok_idle (o : Origin) (m : Mem) (p : Prog) :
  MemInv cs m -> seg_ok cs o m (m, p).
Proof. intros H; split; [exact H | left; reflexivity]. Qed.

Lemma seg_ok_close (o : Origin) (s : nat) (m : Mem) (p : Prog) :
  MemInv cs m -> seg_ok cs o m (socket_close s m, p).
Proof.
  intros H; split; [|left; reflexivity].
  apply MemInv_same with (m := m); auto.
Qed.

Lemma good_get (o : Origin) (req : HttpReq) :
  good cs o (get_conversation_messages P req).
Proof.
  unfold get_conversation_messages.
  destruct (req_jwtVerify P req); simpl; [|exact I].
  intros m Hm. destruct (first_ok _); simpl.
  - split; [apply seg_ok_idle; assumption|].
    intros rows m' Hm'. split; [apply seg_ok_idle; assumption | exact I].
  - split; [apply seg_ok_idle; assumption | exact I].
Qed.

Lemma good_post (o : Origin) (req : HttpReq) :
  good cs o (post_messages P req).
Proof.
  unfold post_messages.
  destruct (req_jwtVerify P req); simpl; [|exact I].
  destruct (SendMessageBody_safeParse P (body req)) as [data|]; simpl;
    [|exact I].
  intros m Hm. unfold post_after_participant.
  destruct (first_ok _); simpl;
    [|split; [apply seg_ok_idle; assumption | exact I]].
  destruct (check_content data); simpl;
    [split; [apply seg_ok_idle; assumption | exact I]|].
  split; [apply seg_ok_idle; assumption|].
  intros rows m' Hm'. unfold post_after_insert.
  destruct rows as [|messageId rows];
    [split; [apply seg_ok_idle; assumption | exact I]|].
  rewrite broadcast_spec. simpl. split; [|exact I].
  split; [|left; reflexivity].
  apply MemInv_same with (m := m'); auto.
Qed.

Lemma good_ws_after (sock : nat) (c u : jsstring) :
  good cs (Ws sock)
    (await_isParticipant c u (ws_after_participant sock c u)).
Proof.
  simpl. intros m Hm. unfold ws_after_participant.
  destruct (first_ok _) eqn:E; simpl.
  - split; [|exact I]. split.
    + apply MemInv_push; assumption.
    + right. exists (new_client u c sock m). auto.
  - split; [apply seg_ok_close; assumption | exact I].
Qed.

Lemma good_ws (sock : nat) (req : WsReq) :
  good_task cs {| origin := Ws sock; state := Runnable (ws_handler P sock req) |}.
Proof.
  unfold good_task; simpl. intros m Hm. unfold ws_handler.
  destruct (negb (truthy_opt (ws_token req)));
    [split; [apply seg_ok_close; assumption | exact I]|].
  destruct (ws_token req) as [tok|];
    [|split; [apply seg_ok_close; assumption | exact I]].
  destruct (jwt_verify P tok) as [payload|];
    [|split; [apply seg_ok_close; assumption | exact I]].
  destruct (negb (truthy _));
    [split; [apply seg_ok_close; assumption | exact I]|].
  split; [apply seg_ok_idle; assumption|].
  apply good_ws_after.
Qed.

End HandlersGood.

(** *** Every step keeps the invariant *)

Section Reachability.

Variable P : Platform.

Lemma answer_good (d d' : Db) (fresh : jsstring * Z) (o : Origin) (p : Prog)
    (k : Mem -> Mem * Prog) :
  good (conversations d) o p -> answer d fresh p = Some (d', k) ->
  conversations d' = conversations d
  /\ forall m, MemInv (conversations d) m ->
       seg_ok (conversations d) o m (k m)
       /\ good (conversations d) o (snd (k m)).
Proof.
  destruct p as [r|c u k0|c k0|c u t x mu mm k0]; simpl; intros Hg H.
  - discriminate.
  - injection H as <- <-. split; [reflexivity|]. exact Hg.
  - injection H as <- <-. split; [reflexivity|]. intros m; apply Hg.
  - injection H as <- <-. split; [reflexivity|]. intros m; apply Hg.
Qed.

Lemma initial_SysInv (d : Db) : SysInv (initial d).
Proof.
  unfold SysInv, initial, MemInv; simpl.
  repeat split; constructor.
Qed.

Lemma SysInv_pool_snoc (s : Sys) (t : Task) (n : nat) :
  SysInv s -> good_task (conversations (db s)) t ->
  (origin t = Http /\ n = next_sock s
   \/ origin t = Ws (next_sock s) /\ n = S (next_sock s)) ->
  SysInv {| db := db s; mem := mem s; pool := pool s ++ [t]; next_sock := n |}.
Proof.
  intros (Hm & Hg & Hn & Hlt & Hs & Hf) Ht Ho. unfold SysInv; simpl.
  split; [exact Hm|]. split; [apply Forall_app; split; auto|].
  rewrite owners_app.
  assert (Hf' : Forall (fun c => exists t0, In t0 (pool s ++ [t])
                          /\ origin t0 = Ws (socket c)
                          /\ state t0 = Suspended (Finish None))
                  (wsClients (mem s))).
  { eapply Forall_impl; [|exact Hf]. intros c (t0 & Hin & H).
    exists t0; split; [apply in_or_app; auto | exact H]. }
  assert (Eo : owners [t] = match origin t with Ws x => [x] | Http => [] end).
  { unfold owners; simpl. apply app_nil_r. }
  rewrite Eo. destruct Ho as [[Ho ->]|[Ho ->]]; rewrite Ho.
  - rewrite app_nil_r. auto.
  - split; [|split; [|split; assumption]].
    + apply NoDup_snoc; [assumption|]. intros Hin.
      rewrite Forall_forall in Hlt. specialize (Hlt _ Hin). lia.
    + apply Forall_app; split; [|repeat constructor].
      eapply Forall_impl; [|exact Hlt]. intros; simpl in *; lia.
Qed.

Lemma SysInv_mem_shrinks (s : Sys) (m' : Mem) :
  SysInv s -> shrinks (mem s) m' ->
  SysInv {| db := db s; mem := m'; pool := pool s; next_sock := next_sock s |}.
Proof.
  intros (Hm & Hg & Hn & Hlt & Hs & Hf) Hsh. unfold SysInv; simpl.
  split; [apply (MemInv_shrinks Hsh Hm)|]. split; [assumption|].
  split; [assumption|]. split; [assumption|].
  destruct Hsh as (_ & F & N). split; [apply N, Hs | apply F, Hf].
Qed.

Lemma SysInv_mem_same (s : Sys) (m' : Mem) :
  SysInv s -> wsClients m' = wsClients (mem s) -> next_ref m' = next_ref (mem s) ->
  SysInv {| db := db s; mem := m'; pool := pool s; next_sock := next_sock s |}.
Proof.
  intros H E1 E2. apply SysInv_mem_shrinks; [assumption|].
  unfold shrinks. rewrite E1, E2. auto.
Qed.

Theorem step_SysInv (s : Sys) (e : Event) : SysInv s -> SysInv (step P s e).
Proof.
  intros Hinv. destruct e as [req|req|req|i fresh|i|sock|sock|sock]; simpl.
  - apply SysInv_pool_snoc; [assumption | apply good_get | left; auto].
  - apply SysInv_pool_snoc; [assumption | apply good_post | left; auto].
  - apply SysInv_pool_snoc; [assumption | apply good_ws | right; auto].
  - (* the store answers task i *)
    destruct (nth_error (pool s) i) as [[o [k|p]]|] eqn:Ei; try assumption.
    destruct (answer (db s) fresh p) as [[d' k]|] eqn:Ea; try assumption.
    destruct Hinv as (Hm & Hg & Hn & Hlt & Hs & Hf).
    assert (Hgi : good (conversations (db s)) o p).
    { rewrite Forall_forall in Hg.
      apply (Hg _ (nth_error_In _ _ Ei)). }
    destruct (answer_good _ _ _ _ Hgi Ea) as [Ec Hk].
    unfold SysInv; simpl. rewrite Ec.
    split; [assumption|]. split; [apply set_nth_Forall; assumption|].
    rewrite (owners_set_nth _ _ _ Ei) by reflexivity.
    split; [assumption|]. split; [assumption|]. split; [assumption|].
    eapply Forall_impl; [|exact Hf]. intros c (t & Hin & Ho & Hst).
    exists t; split; [|auto].
    apply set_nth_In_other with (y := {| origin := o; state := Suspended p |});
      [assumption | assumption |].
    intros ->. simpl in Hst. injection Hst as ->. discriminate.
  - (* task i runs its next segment *)
    destruct (nth_error (pool s) i) as [[o [k|p]]|] eqn:Ei; try assumption.
    destruct Hinv as (Hm & Hg & Hn & Hlt & Hs & Hf).
    assert (Hgi : good_task (conversations (db s))
                    {| origin := o; state := Runnable k |}).
    { rewrite Forall_forall in Hg. apply (Hg _ (nth_error_In _ _ Ei)). }
    destruct (Hgi _ Hm) as [[Hm' Hreg] Hp]. simpl in *.
    destruct (k (mem s)) as [m' p] eqn:Ek. simpl in *.
    unfold SysInv; simpl.
    split; [assumption|]. split; [apply set_nth_Forall; assumption|].
    rewrite (owners_set_nth _ _ _ Ei) by reflexivity.
    split; [assumption|]. split; [assumption|].
    assert (Hold : Forall (fun c => exists t,
                     In t (set_nth i {| origin := o; state := Suspended p |} (pool s))
                     /\ origin t = Ws (socket c)
                     /\ state t = Suspended (Finish None))
                   (wsClients (mem s))).
    { eapply Forall_impl; [|exact Hf]. intros c (t & Hin & Ho & Hst).
      exists t; split; [|auto].
      apply set_nth_In_other with (y := {| origin := o; state := Runnable k |});
        [assumption | assumption |].
      intros ->. simpl in Hst. discriminate. }
    destruct Hreg as [E|(c & Ho & E & Hfin)]; rewrite E.
    + split; assumption.
    + subst p o. split.
      * rewrite map_app; simpl. apply NoDup_snoc; [assumption|].
        intros Hin. apply in_map_iff in Hin as (x & Hx & Hin).
        rewrite Forall_forall in Hf.
        destruct (Hf x Hin) as (t & Ht & Ho & Hst).
        rewrite Hx in Ho.
        pose proof (owner_unique (pool s) _ _ Hn (nth_error_In _ _ Ei) Ht
                      eq_refl Ho) as Et.
        rewrite <- Et in Hst. simpl in Hst. discriminate.
      * apply Forall_app; split; [assumption|]. repeat constructor.
        eexists; split; [eapply set_nth_In_self; exact Ei|]. auto.
  - apply SysInv_mem_shrinks; [assumption | apply emit_close_shrinks].
  - apply SysInv_mem_same; auto.
  - apply SysInv_mem_same; auto.
Qed.

Lemma reachable_run_events (s : Sys) (es : list Event) :
  reachable P s -> reachable P (run_events P s es).
Proof.
  unfold run_events. revert s; induction es as [|e es IH]; intros s H; simpl.
  - exact H.
  - apply IH. constructor; exact H.
Qed.

Theorem reachable_SysInv (s : Sys) : reachable P s -> SysInv s.
Proof.
  induction 1; [apply initial_SysInv | apply step_SysInv; assumption].
Qed.

End Reachability.

(** ** Teardown *)

Lemma indexOf_absent (c : WsClient) (l : list WsClient) :
  Forall (fun x => ref x <> ref c) l -> indexOf c l = (-1)%Z.
Proof.
  induction 1 as [|x l Hx Hl IH]; simpl; [reflexivity|].
  unfold same_object. destruct (Nat.eqb_spec (ref x) (ref c)); [tauto|].
  rewrite IH. reflexivity.
Qed.

Lemma indexOf_range (c : WsClient) (l : list WsClient) :
  (indexOf c l = -1 \/ 0 <= indexOf c l)%Z.
Proof.
  induction l as [|x l IH]; simpl; [auto|].
  destruct (same_object x c); [right; lia|].
  destruct (indexOf c l <? 0)%Z eqn:E; [auto|].
  apply Z.ltb_ge in E. right; lia.
Qed.

Lemma splice_indexOf_absent (c : WsClient) (l : list WsClient) :
  NoDup (map ref l) -> (0 <= indexOf c l)%Z ->
  Forall (fun x => ref x <> ref c) (splice1 (Z.to_nat (indexOf c l)) l).
Proof.
  induction l as [|x l IH]; simpl; [lia|].
  intros Hnd. inversion Hnd as [|? ? Hx Hl]; subst.
  unfold same_object. destruct (Nat.eqb_spec (ref x) (ref c)) as [E|E].
  - intros _. simpl. unfold splice1; simpl.
    rewrite Forall_forall. intros y Hy Ey. apply Hx. rewrite E, <- Ey.
    apply in_map; assumption.
  - destruct (indexOf c l <? 0)%Z eqn:El; [lia|].
    apply Z.ltb_ge in El. intros _.
    replace (Z.to_nat (indexOf c l + 1)) with (S (Z.to_nat (indexOf c l)))
      by lia.
    rewrite splice1_cons. constructor; [exact E | apply IH; assumption].
Qed.

Lemma on_close_absent_id (c : WsClient) (m : Mem) :
  absent c m -> on_close c m = m.
Proof.
  unfold absent, on_close. intros H. rewrite indexOf_absent by exact H. reflexivity.
Qed.

Lemma on_close_makes_absent (c : WsClient) (m : Mem) :
  NoDup (map ref (wsClients m)) -> absent c (on_close c m).
Proof.
  intros Hnd. unfold absent, on_close.
  destruct (indexOf_range c (wsClients m)) as [E|E].
  - rewrite E; simpl.
    destruct (indexOf c (wsClients m) >=? 0)%Z eqn:E'; [rewrite E in E'; discriminate|].
    clear E'. revert E. generalize (wsClients m) as l.
    induction l as [|x l IH]; simpl; [constructor|].
    unfold same_object. destruct (Nat.eqb_spec (ref x) (ref c)); [discriminate|].
    destruct (indexOf c l <? 0)%Z eqn:El; [|apply Z.ltb_ge in El; lia].
    intros _. constructor; [assumption|]. apply IH.
    destruct (indexOf_range c l); [assumption | apply Z.ltb_lt in El; lia].
  - destruct (indexOf c (wsClients m) >=? 0)%Z eqn:E'; [|lia].
    simpl. apply splice_indexOf_absent; assumption.
Qed.

Lemma close_listeners_absent (s : nat) (ls : list (nat * WsClient)) (m : Mem) :
  NoDup (map ref (wsClients m)) ->
  forall l, In l ls -> fst l = s -> absent (snd l) (close_listeners s ls m).
Proof.
  revert m; induction ls as [|[s' c] ls IH]; intros m Hnd l; simpl; [tauto|].
  intros [<-|Hin] Hs.
  - simpl in Hs. subst s'. rewrite Nat.eqb_refl. simpl.
    destruct (close_listeners_shrinks s ls (on_close c m)) as (_ & F & _).
    apply F. apply on_close_makes_absent; assumption.
  - apply IH; [|assumption|assumption].
    destruct (Nat.eqb s' s); [|assumption].
    destruct (on_close_shrinks c m) as (_ & _ & N). apply N; assumption.
Qed.

Lemma close_listeners_id (s : nat) (ls : list (nat * WsClient)) (m : Mem) :
  (forall l, In l ls -> fst l = s -> absent (snd l) m) ->
  close_listeners s ls m = m.
Proof.
  induction ls as [|[s' c] ls IH]; simpl; [reflexivity|].
  intros H. destruct (Nat.eqb_spec s' s) as [E|E].
  - rewrite on_close_absent_id by (apply (H (s', c)); auto).
    apply IH. intros l Hl; apply H; auto.
  - apply IH. intros l Hl; apply H; auto.
Qed.

Lemma listeners_on_close (c : WsClient) (m : Mem) :
  listeners (on_close c m) = listeners m.
Proof. unfold on_close. destruct (_ >=? _)%Z; reflexivity. Qed.

Lemma listeners_close_listeners (s : nat) (ls : list (nat * WsClient))
    (m : Mem) :
  listeners (close_listeners s ls m) = listeners m.
Proof.
  revert m; induction ls as [|[s' c] ls IH]; intros m; simpl; [reflexivity|].
  destruct (Nat.eqb s' s); rewrite IH; [apply listeners_on_close | reflexivity].
Qed.

Section Teardown.

Variable P : Platform.

(** C8: in every state the server can reach, running the close callback of
    a connection a second time changes nothing, and a second ['close']
    event on a socket leaves the whole state as the first one left it; the
    callback is a total function of the memory. *)
Theorem teardown_idempotent (s : Sys) (c : WsClient) (sock : nat) :
  reachable P s ->
  on_close c (on_close c (mem s)) = on_close c (mem s)
  /\ step P (step P s (SocketCloses sock)) (SocketCloses sock)
     = step P s (SocketCloses sock).
Proof.
  intros Hr. destruct (reachable_SysInv Hr) as ((_ & Hnd & _) & _).
  split.
  - apply on_close_absent_id, on_close_makes_absent, Hnd.
  - simpl. f_equal. unfold emit_close.
    change (close_listeners sock
              (listeners (close_listeners sock (listeners (mem s)) (mem s)))
              (close_listeners sock (listeners (mem s)) (mem s))
            = close_listeners sock (listeners (mem s)) (mem s)).
    rewrite listeners_close_listeners.
    apply close_listeners_id. intros l Hl Hs.
    apply close_listeners_absent; assumption.
Qed.

End Teardown.

(** ** The handshake *)

Lemma truthy_iff (s : jsstring) : truthy s = true <-> s <> [].
Proof. destruct s; simpl; split; congruence. Qed.

(** The header token wins over the query token. *)
Lemma ws_token_header (req : WsReq) (tok : jsstring) :
  headers_authorization req = Some (js "Bearer " ++ tok) -> tok <> [] ->
  ws_token req = Some tok.
Proof.
  intros Hh Ht. unfold ws_token. rewrite Hh.
  destruct tok as [|x tok]; [congruence | reflexivity].
Qed.

Lemma ws_token_query (req : WsReq) :
  headers_authorization req = None ->
  ws_token req = if truthy_opt (query_token req) then query_token req else None.
Proof.
  intros Hh. unfold ws_token. rewrite Hh.
  destruct (query_token req) as [[|x t]|]; reflexivity.
Qed.

Section Handshake.

Variable P : Platform.

Lemma ws_run_ok (fresh : jsstring * Z) (sock : nat) (req : WsReq) (d : Db)
    (m : Mem) (u c : jsstring) :
  handshake_ok P d req u c ->
  ws_run P fresh sock req d m = (d, registered u c sock m, None).
Proof.
  intros (tok & payload & Ht & Hne & Hv & Hu & Hc & Hcne & Hp).
  destruct tok as [|x tok]; [congruence|]. destruct c as [|y c]; [congruence|].
  unfold ws_run, ws_handler. rewrite Ht; simpl. rewrite Hv, Hc; simpl.
  rewrite Hu. unfold isParticipant in Hp. rewrite Hp. reflexivity.
Qed.

Lemma ws_run_rejected (fresh : jsstring * Z) (sock : nat) (req : WsReq)
    (d : Db) (m : Mem) :
  (forall u c, ~ handshake_ok P d req u c) ->
  ws_run P fresh sock req d m = (d, socket_close sock m, None).
Proof.
  intros Hno. unfold ws_run, ws_handler.
  destruct (ws_token req) as [[|x tok]|] eqn:Ht; simpl; try reflexivity.
  destruct (jwt_verify P (x :: tok)) as [payload|] eqn:Hv; try reflexivity.
  destruct (query_conversationId req) as [[|y c]|] eqn:Hc; simpl;
    try reflexivity.
  destruct (isParticipant d (y :: c) (payload_uid payload)) eqn:Hp;
    unfold isParticipant in Hp; rewrite Hp; [|reflexivity].
  exfalso. apply (Hno (payload_uid payload) (y :: c)).
  exists (x :: tok), payload.
  repeat (split; [first [assumption | reflexivity | discriminate]|]).
  exact Hp.
Qed.

(** C4: the handler adds a client exactly when the handshake supplied a
    token that verifies and a conversation identifier of which the token's
    user is a participant; otherwise it closes the socket and leaves
    [wsClients] as it was.  Hence in every reachable state each registered
    client belongs to a participant of its conversation. *)
Theorem registration_requires_handshake :
  (forall (fresh : jsstring * Z) (sock : nat) (req : WsReq) (d : Db) (m : Mem),
     let m' := snd (fst (ws_run P fresh sock req d m)) in
     (forall u c, handshake_ok P d req u c ->
        wsClients m'
        = wsClients m ++ [{| ref := next_ref m; uid := u;
                             conversationId := c; socket := sock |}]
        /\ closed m' = closed m)
     /\ ((forall u c, ~ handshake_ok P d req u c) ->
         wsClients m' = wsClients m /\ closed m' = closed m ++ [sock]))
  /\ (forall s, reachable P s ->
        Forall (fun c => isParticipant (db s) (conversationId c) (uid c) = true)
               (wsClients (mem s))).
Proof.
  split.
  - intros fresh sock req d m m'. split.
    + intros u c H. unfold m'. rewrite (ws_run_ok fresh sock m H). auto.
    + intros H. unfold m'. rewrite (ws_run_rejected fresh sock m H). auto.
  - intros s Hr. destruct (reachable_SysInv Hr) as ((_ & _ & Hp) & _).
    exact Hp.
Qed.

End Handshake.

(** ** Fan-out *)

Section FanOut.

Variable P : Platform.

Lemma calls_for_frame (m : Mem) (frame : jsstring) (l : list WsClient) :
  Forall (fun k => call_frame k = frame) (calls_for m frame l).
Proof.
  unfold calls_for. rewrite Forall_map. apply Forall_forall. reflexivity.
Qed.

(** C1: once a message is stored for a conversation, the code that runs
    next, in whatever reachable state it finds the registry, calls [send]
    exactly once on the socket of every connection registered for that
    conversation, with the event built from the stored row, and not at all
    on the socket of a connection registered for another conversation. *)
Theorem broadcast_reaches_conversation (s : Sys) (d : Db)
    (fresh : jsstring * Z) (data : SendData) (uid : jsstring) :
  reachable P s ->
  let stored :=
    q_insert_message d fresh (d_conversationId data) uid (d_type data)
      (str_or_null (d_text data)) (str_or_null (d_mediaUrl data))
      (any_or_null (d_mediaMeta data)) in
  let row := stored_row fresh data uid in
  messages (fst stored) = messages d ++ [row]
  /\ snd stored = [msg_id row]
  /\ exists m' new,
       post_after_insert P data uid (snd stored) (mem s)
       = (m', Finish (Some (Sent (msg_id row))))
       /\ sent m' = sent (mem s) ++ new
       /\ wsClients m' = wsClients (mem s)
       /\ Forall (fun k => call_frame k = JSON_stringify P (event_of_row row))
            new
       /\ (forall c, In c (wsClients (mem s)) ->
           conversationId c = conversation_id row ->
           calls_on (socket c) new = 1)
       /\ (forall c, In c (wsClients (mem s)) ->
           conversationId c <> conversation_id row ->
           calls_on (socket c) new = 0).
Proof.
  intros Hr stored row.
  destruct (reachable_SysInv Hr) as (_ & _ & _ & _ & Hnd & _).
  split; [reflexivity|]. split; [reflexivity|].
  eexists. eexists.
  split; [apply post_after_insert_spec|].
  split; [reflexivity|]. split; [reflexivity|].
  split; [apply calls_for_frame|].
  split; intros c Hc Hconv; unfold registered_for;
    rewrite calls_on_filter by assumption; simpl.
  - rewrite Hconv. simpl. rewrite jsstring_eqb_refl. reflexivity.
  - simpl in Hconv. apply jsstring_eqb_neq in Hconv. rewrite Hconv. reflexivity.
Qed.

End FanOut.

(** * The statements at work on the demo server *)

Lemma demo_state_reachable : reachable demo demo_state.
Proof.
  unfold demo_state. apply reachable_run_events. constructor.
Defined.

(** U1 sends [" hi "] on [c1]: sockets 0 and 2 are called once, socket 1
    (registered for [c2]) is not. *)
Lemma broadcast_reaches_conversation_witness :
  reachable demo demo_state
  /\ exists m' new,
       post_after_insert demo demo_data_hi (js "U1") [js "m9"] (mem demo_state)
       = (m', Finish (Some (Sent (js "m9"))))
       /\ sent m' = sent (mem demo_state) ++ new
       /\ calls_on 0 new = 1 /\ calls_on 2 new = 1 /\ calls_on 1 new = 0.
Proof.
  split; [exact demo_state_reachable|].
  destruct (broadcast_reaches_conversation demo_db (js "m9", 7%Z)
              demo_data_hi (js "U1") demo_state_reachable)
    as (_ & _ & m' & new & Hpost & Hsent & _ & _ & Hin & Hout).
  exists m', new. split; [exact Hpost|]. split; [exact Hsent|].
  split; [|split].
  - apply (Hin (demo_client 0)); [left; reflexivity | reflexivity].
  - apply (Hin (demo_client 2)); [right; right; left; reflexivity | reflexivity].
  - apply (Hout (demo_client 1)); [right; left; reflexivity | discriminate].
Defined.

Lemma non_participant_is_refused_witness :
  run_alone (js "m9", 7%Z) (post_messages demo (post_req "tok:U3" body_hi))
    demo_db (mem demo_state)
  = (demo_db, mem demo_state, Some NoAccess).
Proof.
  eapply proj1, non_participant_is_refused; reflexivity.
Defined.

(** A malformed body from a non-participant is InvalidInput; a well-formed
    body with blank text from a non-participant is Forbidden; the same body
    from a participant is InvalidInput. *)
Lemma validation_order_witness :
  run_alone (js "m9", 7%Z)
    (post_messages demo (post_req "tok:U3" body_malformed)) demo_db empty_mem
  = (demo_db, empty_mem, Some InvalidData)
  /\ run_alone (js "m9", 7%Z)
       (post_messages demo (post_req "tok:U3" body_blank)) demo_db empty_mem
     = (demo_db, empty_mem, Some NoAccess)
  /\ run_alone (js "m9", 7%Z)
       (post_messages demo (post_req "tok:U1" body_blank)) demo_db empty_mem
     = (demo_db, empty_mem, Some TextRequired).
Proof.
  split; [|split].
  - eapply proj1, (proj1 (validation_order demo
                            (post_req "tok:U3" body_malformed) demo_db
                            empty_mem (js "m9", 7%Z) eq_refl)).
    reflexivity.
  - eapply proj1, (proj1 (proj2 (proj2 (validation_order demo
                            (post_req "tok:U3" body_blank) demo_db
                            empty_mem (js "m9", 7%Z) eq_refl)) _ eq_refl)).
    reflexivity.
  - eapply proj1, (proj1 (proj2 (proj2 (proj2 (validation_order demo
                            (post_req "tok:U1" body_blank) demo_db
                            empty_mem (js "m9", 7%Z) eq_refl)) _ eq_refl))).
    + reflexivity.
    + reflexivity.
    + right. eexists; split; [reflexivity|]. repeat constructor.
Defined.

Lemma registration_requires_handshake_witness :
  handshake_ok demo demo_db
    (ws_header "tok:U4" "22222222-2222-4222-8222-222222222222") (js "U4") c2
  /\ (forall u c, ~ handshake_ok demo demo_db
                      (ws_query "tok:U3" "11111111-1111-4111-8111-111111111111")
                      u c)
  /\ reachable demo demo_state
  /\ Forall (fun c => isParticipant (db demo_state) (conversationId c) (uid c)
                      = true)
       (wsClients (mem demo_state)).
Proof.
  split; [|split; [|split]].
  - exists (js "tok:U4"), {| payload_uid := js "U4" |}.
    repeat (split; [first [reflexivity | discriminate]|]). reflexivity.
  - intros u c (tok & payload & Ht & _ & Hv & Hu & Hc & _ & Hp).
    injection Ht as <-. injection Hv as <-. injection Hc as <-.
    simpl in Hu. subst u. discriminate Hp.
  - exact demo_state_reachable.
  - exact (proj2 (registration_requires_handshake demo) demo_state
             demo_state_reachable).
Defined.

(** Socket 0 throws on every send: socket 2 still gets the frame and the
    sender still gets its success reply. *)
Lemma send_failure_is_contained_witness :
  existsb (Nat.eqb 0) (failing (mem demo_state)) = true
  /\ exists m',
       post_after_insert demo demo_data_hi (js "U1") [js "m9"] (mem demo_state)
       = (m', Finish (Some (Sent (js "m9"))))
       /\ In {| call_socket := 2;
                call_frame := demo_stringify
                                (event_of_row
                                   (stored_row (js "m9", 7%Z) demo_data_hi
                                      (js "U1")));
                call_threw := false |} (sent m').
Proof.
  split; [reflexivity|].
  destruct (send_failure_is_contained demo (js "m9", 7%Z) demo_data_hi
              (js "U1") demo_db (mem demo_state))
    as (m' & Hpost & _ & _ & Hok).
  exists m'. split; [exact Hpost|].
  apply (Hok (demo_client 2)); [right; left; reflexivity | reflexivity].
Defined.

(** Without the [try]/[catch] the loop would stop at the failing socket. *)
Example forEach_without_catch_stops :
  forEach (fun c m => socket_send (socket c) (js "frame") m)
    (registered_for c1 (mem demo_state)) (mem demo_state)
  = (log_calls (mem demo_state)
       [{| call_socket := 0; call_frame := js "frame"; call_threw := true |}],
     Throw).
Proof. vm_compute. reflexivity. Qed.

Lemma history_fetch_witness :
  run_alone (js "m9", 7%Z)
    (get_conversation_messages demo (post_req "tok:U2" body_hi))
    demo_history_db empty_mem
  = (demo_history_db, empty_mem,
     Some (Messages (q_select_history demo_history_db c1)))
  /\ map h_id (q_select_history demo_history_db c1) = [js "m1"; js "m3"]
  /\ run_alone (js "m9", 7%Z)
       (get_conversation_messages demo (post_req "tok:U4" body_hi))
       demo_history_db empty_mem
     = (demo_history_db, empty_mem, Some NoAccess).
Proof.
  destruct (history_fetch demo (post_req "tok:U2" body_hi) demo_history_db
              empty_mem (js "m9", 7%Z) eq_refl) as (r & Hr & _ & Hyes & _).
  destruct (history_fetch demo (post_req "tok:U4" body_hi) demo_history_db
              empty_mem (js "m9", 7%Z) eq_refl) as (r' & Hr' & Hno & _).
  split; [|split].
  - rewrite Hr, (Hyes eq_refl). reflexivity.
  - reflexivity.
  - rewrite Hr', (proj1 (Hno eq_refl)). reflexivity.
Defined.

Lemma teardown_idempotent_witness :
  reachable demo demo_state
  /\ wsClients (on_close (demo_client 0) (mem demo_state))
     = [demo_client 1; demo_client 2]
  /\ on_close (demo_client 0) (on_close (demo_client 0) (mem demo_state))
     = on_close (demo_client 0) (mem demo_state)
  /\ step demo (step demo demo_state (SocketCloses 2)) (SocketCloses 2)
     = step demo demo_state (SocketCloses 2).
Proof.
  split; [exact demo_state_reachable|]. split; [reflexivity|].
  exact (teardown_idempotent (demo_client 0) 2 demo_state_reachable).
Defined.

(** The text [" hi "] is stored and sent with its blanks, and the caption
    of an image message is kept as well. *)
Lemma accepted_text_is_verbatim_witness :
  (exists d' m', run_alone (js "m9", 7%Z)
                   (post_messages demo (post_req "tok:U1" body_hi))
                   demo_db (mem demo_state) = (d', m', Some (Sent (js "m9")))
                 /\ map msg_text (messages d') = [Some (js " hi ")])
  /\ (exists d' m', run_alone (js "m9", 7%Z)
                      (post_messages demo (post_req "tok:U1" body_photo))
                      demo_db (mem demo_state) = (d', m', Some (Sent (js "m9")))
                    /\ map msg_text (messages d') = [Some (js " look ")]).
Proof.
  split.
  - destruct (accepted_text_is_verbatim demo (post_req "tok:U1" body_hi)
                demo_db (mem demo_state) (js "m9", 7%Z)
                eq_refl eq_refl eq_refl eq_refl) as [Hrun _].
    eexists; eexists; split; [exact Hrun | reflexivity].
  - destruct (accepted_text_is_verbatim demo (post_req "tok:U1" body_photo)
                demo_db (mem demo_state) (js "m9", 7%Z)
                eq_refl eq_refl eq_refl eq_refl) as [Hrun _].
    eexists; eexists; split; [exact Hrun | reflexivity].
Defined.

(** * Beyond the registry: uploads, login, history and the life of a
      connection *)

(** ** Stored file names *)

Lemma uint_digits (d : Decimal.uint) :
  Forall is_digit (js (NilEmpty.string_of_uint d)).
Proof.
  unfold js, is_digit.
  induction d; simpl; constructor; try assumption; simpl; lia.
Qed.

Lemma decimal_digits (n : N) : Forall is_digit (decimal n).
Proof. apply uint_digits. Qed.

Lemma decimal_head (n : N) :
  exists d rest, decimal n = d :: rest /\ is_digit d.
Proof.
  pose proof (decimal_digits n) as H. unfold decimal in *.
  assert (Hn : N.to_uint n <> Decimal.Nil).
  { destruct n; simpl; [discriminate | apply DecimalPos.Unsigned.to_uint_nonnil]. }
  destruct (N.to_uint n); [congruence | ..];
    simpl in *; inversion H; subst;
    (eexists; eexists; split; [reflexivity | assumption]).
Qed.



Lemma is_safe_digit (c : N) : is_digit c -> is_safe_char c = true.
Proof.
  unfold is_digit, is_safe_char. intros [H1 H2].
  apply N.leb_le in H1, H2. rewrite H1, H2. simpl.
  rewrite !orb_true_r. reflexivity.
Qed.

Lemma sanitize_safe (f : jsstring) :
  Forall (fun c => is_safe_char c = true) (sanitize f).
Proof.
  unfold sanitize. rewrite Forall_map. apply Forall_forall. intros c _.
  destruct (is_safe_char c) eqn:E; [exact E | reflexivity].
Qed.


(** X1: The name a file is stored under is made of the characters
    [a-zA-Z0-9._-] only and starts with a digit: it holds no path separator
    and is neither [.] nor [..], whatever name the client sent. *)
Theorem safeName_is_a_plain_file_name (now : N) (f : jsstring) :
  Forall (fun c => is_safe_char c = true) (safeName now f)
  /\ ~ In 47%N (safeName now f)
  /\ ~ In 92%N (safeName now f)
  /\ ~ In 0%N (safeName now f)
  /\ exists d rest, safeName now f = d :: rest /\ is_digit d.
Proof.
  assert (Hall : Forall (fun c => is_safe_char c = true) (safeName now f)).
  { unfold safeName. apply Forall_app; split.
    - eapply Forall_impl; [|apply decimal_digits]. apply is_safe_digit.
    - apply Forall_app; split; [repeat constructor | apply sanitize_safe]. }
  assert (Hnot : forall c, is_safe_char c = false -> ~ In c (safeName now f)).
  { intros c Hc Hin. rewrite Forall_forall in Hall.
    rewrite (Hall c Hin) in Hc. discriminate. }
  split; [exact Hall|]. repeat (split; [apply Hnot; reflexivity|]).
  destruct (decimal_head now) as (d & rest & E & Hd).
  unfold safeName. rewrite E. simpl. eauto.
Qed.

(** X2: Sanitising keeps the length, changes nothing in a name that is already
    safe (and only then), and its result is always safe, so sanitising twice
    is sanitising once. *)
Theorem sanitize_props (f : jsstring) :
  List.length (sanitize f) = List.length f
  /\ (sanitize f = f <-> Forall (fun c => is_safe_char c = true) f)
  /\ sanitize (sanitize f) = sanitize f.
Proof.
  assert (Hfix : forall g, Forall (fun c => is_safe_char c = true) g ->
                           sanitize g = g).
  { induction 1 as [|c g Hc Hg IH]; simpl; [reflexivity|].
    rewrite Hc. f_equal. exact IH. }
  split; [apply length_map|]. split.
  - split; [|apply Hfix]. intros E. rewrite <- E. apply sanitize_safe.
  - apply Hfix, sanitize_safe.
Qed.


Example safeName_collision_example :
  safeName 1700000000000 (js "a b.png") = safeName 1700000000000 (js "a/b.png")
  /\ safeName 1700000000000 (js "../../etc/passwd")
     = js "1700000000000_.._.._etc_passwd".
Proof. split; vm_compute; reflexivity. Qed.

(** ** [POST /upload] *)

Lemma read_file_filter (name other : jsstring) (dir : Uploads) :
  other <> name ->
  read_file other (filter (fun e => negb (jsstring_eqb (fst e) name)) dir)
  = read_file other dir.
Proof.
  intros Hne. induction dir as [|[n bytes] dir IH]; simpl; [reflexivity|].
  destruct (jsstring_eqb n name) eqn:En; simpl.
  - apply jsstring_eqb_eq in En. subst n.
    destruct (jsstring_eqb name other) eqn:Eo; [|exact IH].
    apply jsstring_eqb_eq in Eo. congruence.
  - destruct (jsstring_eqb n other); [reflexivity | exact IH].
Qed.

Lemma read_write_file (name other : jsstring) (bytes : list N) (dir : Uploads) :
  read_file name (write_file name bytes dir) = Some bytes
  /\ (other <> name ->
      read_file other (write_file name bytes dir) = read_file other dir).
Proof.
  unfold write_file; simpl. rewrite jsstring_eqb_refl. split; [reflexivity|].
  intros Hne. destruct (jsstring_eqb name other) eqn:E.
  - apply jsstring_eqb_eq in E. congruence.
  - apply read_file_filter; assumption.
Qed.

Section Upload.

Variable P : Platform.

Lemma post_upload_Uploaded (now : N) (req : UploadReq)
    (dir dir' : Uploads) (url : jsstring) (meta : JsVal) :
  post_upload P now req dir = (dir', Uploaded url meta) ->
  exists mp user,
    up_file req = Some mp
    /\ req_jwtVerify P (up_http req) = Some user
    /\ url = js "/files/" ++ safeName now (filename mp)
    /\ meta = upload_meta mp (payload_uid user)
    /\ dir' = write_file (safeName now (filename mp)) (file_bytes mp) dir.
Proof.
  unfold post_upload.
  destruct (req_jwtVerify P (up_http req)) as [user|]; [|discriminate].
  destruct (up_file req) as [mp|]; [|discriminate].
  destruct (pipe_fails mp); [discriminate|].
  intros H; injection H as <- <- <-.
  exists mp, user. repeat (split; [reflexivity|]). reflexivity.
Qed.

(** X4: A successful upload stores exactly the bytes of the file part under
    the sanitised name, answers with ["/files/"] followed by that very name
    and with the name the client sent (unsanitised), the mime type and the
    uploader in [mediaMeta], and touches no file of another name. *)
Theorem upload_stores_the_file (now : N) (req : UploadReq)
    (dir dir' : Uploads) (url : jsstring) (meta : JsVal) :
  post_upload P now req dir = (dir', Uploaded url meta) ->
  exists mp user,
    up_file req = Some mp
    /\ req_jwtVerify P (up_http req) = Some user
    /\ url = js "/files/" ++ safeName now (filename mp)
    /\ meta = upload_meta mp (payload_uid user)
    /\ read_file (safeName now (filename mp)) dir' = Some (file_bytes mp)
    /\ forall other, other <> safeName now (filename mp) ->
         read_file other dir' = read_file other dir.
Proof.
  intros H.
  destruct (post_upload_Uploaded _ _ _ H) as (mp & user & Hf & Hu & -> & -> & ->).
  exists mp, user. repeat (split; [first [assumption | reflexivity]|]).
  split; [apply read_write_file; exact []|].
  intros other Hne. apply read_write_file; assumption.
Qed.


(** X6: What an upload returns is what a media message needs: sent back by a
    participant as [mediaUrl] and [mediaMeta] of a non-text message, it passes
    the content check and is stored unchanged. *)
Theorem upload_then_send (now : N) (up : UploadReq) (dir dir' : Uploads)
    (url : jsstring) (meta : JsVal) (req : HttpReq) (user : JwtPayload)
    (data : SendData) (d : Db) (m : Mem) (fresh : jsstring * Z) :
  post_upload P now up dir = (dir', Uploaded url meta) ->
  req_jwtVerify P req = Some user ->
  SendMessageBody_safeParse P (body req) = Some data ->
  d_type data <> TText ->
  d_mediaUrl data = Some url ->
  d_mediaMeta data = Some meta ->
  isParticipant d (d_conversationId data) (payload_uid user) = true ->
  exists row,
    run_alone fresh (post_messages P req) d m
    = ({| conversations := conversations d; messages := messages d ++ [row] |},
       log_calls m
         (calls_for m (JSON_stringify P (event_of_row row))
            (registered_for (d_conversationId data) m)),
       Some (Sent (fst fresh)))
    /\ media_url row = Some url
    /\ media_meta row = Some meta.
Proof.
  intros Hup Hu Hp Ht Hurl Hmeta Hok.
  destruct (post_upload_Uploaded _ _ _ Hup)
    as (mp & user' & _ & _ & -> & -> & _).
  exists (stored_row fresh data (payload_uid user)).
  assert (Hc : check_content data = None).
  { apply (proj2 (check_content_media data Ht)). rewrite Hurl. reflexivity. }
  rewrite (post_messages_run P req d m fresh Hu Hp), Hok, Hc.
  split; [reflexivity|]. simpl. rewrite Hurl, Hmeta. split; reflexivity.
Qed.

End Upload.

Lemma upload_stores_the_file_witness :
  post_upload demo 1700000000000 (demo_upload "tok:U1" demo_part) demo_dir
  = ([ (js "1700000000000_my_cat.png", [137; 80; 78; 71]%N);
       (js "1600000000000_notes.txt", [104; 105]%N) ],
     Uploaded (js "/files/1700000000000_my_cat.png")
       (upload_meta demo_part (js "U1")))
  /\ exists mp user,
       up_file (demo_upload "tok:U1" demo_part) = Some mp
       /\ req_jwtVerify demo (up_http (demo_upload "tok:U1" demo_part)) = Some user
       /\ js "/files/1700000000000_my_cat.png"
          = js "/files/" ++ safeName 1700000000000 (filename mp)
       /\ upload_meta demo_part (js "U1") = upload_meta mp (payload_uid user)
       /\ read_file (safeName 1700000000000 (filename mp))
            [ (js "1700000000000_my_cat.png", [137; 80; 78; 71]%N);
              (js "1600000000000_notes.txt", [104; 105]%N) ]
          = Some (file_bytes mp)
       /\ forall other, other <> safeName 1700000000000 (filename mp) ->
            read_file other
              [ (js "1700000000000_my_cat.png", [137; 80; 78; 71]%N);
                (js "1600000000000_notes.txt", [104; 105]%N) ]
            = read_file other demo_dir.
Proof.
  assert (E : post_upload demo 1700000000000 (demo_upload "tok:U1" demo_part)
                demo_dir
              = ([ (js "1700000000000_my_cat.png", [137; 80; 78; 71]%N);
                   (js "1600000000000_notes.txt", [104; 105]%N) ],
                 Uploaded (js "/files/1700000000000_my_cat.png")
                   (upload_meta demo_part (js "U1")))).
  { vm_compute. reflexivity. }
  split; [exact E|].
  exact (upload_stores_the_file demo 1700000000000
           (demo_upload "tok:U1" demo_part) demo_dir E).
Defined.


Lemma upload_then_send_witness :
  exists row,
    run_alone (js "m9", 7%Z)
      (post_messages demo (post_req "tok:U1" body_uploaded)) demo_db empty_mem
    = ({| conversations := conversations demo_db;
          messages := messages demo_db ++ [row] |},
       log_calls empty_mem
         (calls_for empty_mem (JSON_stringify demo (event_of_row row))
            (registered_for c1 empty_mem)),
       Some (Sent (js "m9")))
    /\ media_url row = Some (js "/files/1700000000000_my_cat.png")
    /\ media_meta row = Some (upload_meta demo_part (js "U1")).
Proof.
  eapply (upload_then_send demo 1700000000000
            (demo_upload "tok:U1" demo_part) demo_dir
            (post_req "tok:U1" body_uploaded) demo_db empty_mem (js "m9", 7%Z)).
  - vm_compute. reflexivity.
  - reflexivity.
  - reflexivity.
  - discriminate.
  - reflexivity.
  - reflexivity.
  - reflexivity.
Defined.

(** ** [POST /auth/login] *)

Lemma q_user_by_username_first (users : list UserRow) (u : jsstring)
    (user : UserRow) (rest : list UserRow) :
  q_user_by_username users u = user :: rest ->
  rest = [] /\ In user users /\ user_username user = Some u.
Proof.
  unfold q_user_by_username.
  set (f := fun r : UserRow => match user_username r with
                               | Some n => jsstring_eqb n u
                               | None => false
                               end).
  destruct (filter f users) as [|x l] eqn:E; simpl; [discriminate|].
  intros H; injection H as <- <-. split; [reflexivity|].
  assert (Hx : In x (filter f users)) by (rewrite E; left; reflexivity).
  apply filter_In in Hx as [Hin Hf]. split; [exact Hin|].
  unfold f in Hf. destruct (user_username x) as [n|]; [|discriminate].
  apply jsstring_eqb_eq in Hf. congruence.
Qed.

Lemma q_user_by_key_first (users : list UserRow) (k : jsstring) :
  (q_user_by_key users k = []
   /\ forall user, In user users -> user_key user <> k)
  \/ (exists user, q_user_by_key users k = [user]
                   /\ In user users /\ user_key user = k).
Proof.
  unfold q_user_by_key.
  destruct (filter (fun r => jsstring_eqb (user_key r) k) users)
    as [|x l] eqn:E; simpl.
  - left. split; [reflexivity|]. intros user Hin Hk.
    assert (H : In user (filter (fun r => jsstring_eqb (user_key r) k) users)).
    { apply filter_In. split; [exact Hin|]. apply jsstring_eqb_eq; exact Hk. }
    rewrite E in H. exact H.
  - right. exists x. split; [reflexivity|].
    assert (Hx : In x (filter (fun r => jsstring_eqb (user_key r) k) users))
      by (rewrite E; left; reflexivity).
    apply filter_In in Hx as [Hin Hf]. apply jsstring_eqb_eq in Hf. auto.
Qed.

Lemma z_string_min1_Some (v : option JsVal) (s : jsstring) :
  z_string_min1 v = Some s <-> v = Some (JStr s) /\ s <> [].
Proof.
  unfold z_string_min1, z_string.
  destruct v as [[| | |x| |]|]; try (split; [discriminate | intros [H _]; discriminate]).
  destruct x as [|c x]; simpl.
  - split; [discriminate | intros [H Hn]; injection H as <-; congruence].
  - split; [intros H; injection H as <-; split; [reflexivity | discriminate]
           | intros [H _]; injection H as <-; reflexivity].
Qed.

Section Login.

Variable A : AuthPlatform.

(** X7: A body with a non-empty [username] and [password] is a password login,
    whatever else it carries (a [userKey] is ignored).  It succeeds exactly
    when the first user of that name has a non-empty hash that bcrypt accepts
    for the password; the token then carries that user's id.  Every failure,
    whether the name is unknown, the user has no hash or the password is
    wrong, is the same 401 reply. *)
Theorem password_login (users : list UserRow) (props : list (jsstring * JsVal))
    (u p : jsstring) :
  get_prop (js "username") props = Some (JStr u) -> u <> [] ->
  get_prop (js "password") props = Some (JStr p) -> p <> [] ->
  let reply := auth_login A users (Some (JObj props)) in
  (forall tok uobj,
     reply = LoggedIn tok uobj <->
     exists user h,
       q_user_by_username users u = [user]
       /\ In user users /\ user_username user = Some u
       /\ password_hash user = Some h /\ h <> []
       /\ bcrypt_compare A p h = true
       /\ tok = jwtSign A (password_payload user)
       /\ uobj = password_user user)
  /\ ((forall tok uobj, reply <> LoggedIn tok uobj) ->
      reply = LoginBadCredentials).
Proof.
  intros Hu Hun Hp Hpn reply.
  assert (Eparse : LoginBody_safeParse (Some (JObj props))
                   = Some (PasswordLogin u p)).
  { unfold LoginBody_safeParse.
    rewrite (proj2 (z_string_min1_Some _ _) (conj Hu Hun)).
    rewrite (proj2 (z_string_min1_Some _ _) (conj Hp Hpn)). reflexivity. }
  unfold reply, auth_login. rewrite Eparse.
  destruct (q_user_by_username users u) as [|user rest] eqn:Eq.
  - split; [|reflexivity]. intros tok uobj. split; [discriminate|].
    intros (user & h & H & _). discriminate.
  - destruct (q_user_by_username_first _ _ Eq) as (-> & Hin & Hname).
    destruct (password_hash user) as [[|c h]|] eqn:Eh; simpl.
    + split; [|reflexivity]. intros tok uobj. split; [discriminate|].
      intros (user' & h' & H & _ & _ & Hh & Hne & _).
      injection H as <-. congruence.
    + destruct (bcrypt_compare A p (c :: h)) eqn:Eb; simpl.
      * split.
        -- intros tok uobj. split.
           ++ intros H; injection H as <- <-.
              exists user, (c :: h). repeat split; auto. discriminate.
           ++ intros (user' & h' & H & _ & _ & _ & _ & _ & -> & ->).
              injection H as <-. reflexivity.
        -- intros H. exfalso. eapply H. reflexivity.
      * split; [|reflexivity]. intros tok uobj. split; [discriminate|].
        intros (user' & h' & H & _ & _ & Hh & _ & Hb & _).
        injection H as <-. rewrite Eh in Hh. injection Hh as <-. congruence.
    + split; [|reflexivity]. intros tok uobj. split; [discriminate|].
      intros (user' & h' & H & _ & _ & Hh & _).
      injection H as <-. congruence.
Qed.

(** X8: A body without a valid username/password pair whose [userKey] is
    ["me"] or ["parceiro"] logs in as the first user with that key, with no
    password asked and whatever that user's hash is; without such a user the
    reply is the 401 of the mock login. *)
Theorem key_login (users : list UserRow) (props : list (jsstring * JsVal))
    (k : jsstring) :
  z_string_min1 (get_prop (js "username") props) = None
  \/ z_string_min1 (get_prop (js "password") props) = None ->
  get_prop (js "userKey") props = Some (JStr k) ->
  k = js "me" \/ k = js "parceiro" ->
  let reply := auth_login A users (Some (JObj props)) in
  ((forall user, In user users -> user_key user <> k) ->
   reply = LoginNoMockUser)
  /\ (forall user, In user users -> user_key user = k ->
      exists first,
        q_user_by_key users k = [first]
        /\ In first users /\ user_key first = k
        /\ reply = LoggedIn (jwtSign A (key_payload first)) (key_user first)).
Proof.
  intros Hpair Hk Hval reply.
  assert (Eparse : LoginBody_safeParse (Some (JObj props)) = Some (KeyLogin k)).
  { unfold LoginBody_safeParse, z_enum_userKey. rewrite Hk. simpl.
    assert (Ek : (jsstring_eqb k (js "me") || jsstring_eqb k (js "parceiro"))%bool
                 = true).
    { destruct Hval as [-> | ->]; reflexivity. }
    rewrite Ek.
    destruct Hpair as [-> | E]; [reflexivity|].
    rewrite E.
    destruct (z_string_min1 (get_prop (js "username") props)); reflexivity. }
  unfold reply, auth_login. rewrite Eparse.
  destruct (q_user_by_key_first users k) as [[E Hnone] | (first & E & Hin & Hkey)];
    rewrite E.
  - split; [reflexivity|]. intros user Hin Hkey. exfalso. exact (Hnone _ Hin Hkey).
  - split.
    + intros Hnone. exfalso. exact (Hnone _ Hin Hkey).
    + intros user _ _. exists first. auto.
Qed.

(** X9: Any other value of [userKey], with no valid username/password pair, is
    refused as malformed before the store is asked. *)
Theorem unknown_key_is_invalid (users : list UserRow)
    (props : list (jsstring * JsVal)) :
  z_string_min1 (get_prop (js "username") props) = None
  \/ z_string_min1 (get_prop (js "password") props) = None ->
  (forall k, get_prop (js "userKey") props = Some (JStr k) ->
             k <> js "me" /\ k <> js "parceiro") ->
  auth_login A users (Some (JObj props)) = LoginInvalid.
Proof.
  intros Hpair Hk. unfold auth_login.
  assert (Eparse : LoginBody_safeParse (Some (JObj props)) = None).
  { assert (Ekey : z_enum_userKey (get_prop (js "userKey") props) = None).
    { unfold z_enum_userKey, z_string.
      destruct (get_prop (js "userKey") props) as [[| | |k| |]|];
        try reflexivity.
      destruct (Hk k eq_refl) as [H1 H2].
      apply jsstring_eqb_neq in H1, H2. rewrite H1, H2. reflexivity. }
    unfold LoginBody_safeParse.
    rewrite Ekey.
    destruct Hpair as [-> | E]; [reflexivity|].
    rewrite E.
    destruct (z_string_min1 (get_prop (js "username") props)); reflexivity. }
  rewrite Eparse. reflexivity.
Qed.

End Login.



Lemma password_login_witness :
  (forall tok uobj,
     auth_login demo_auth demo_users
       (login_body [field "username" "ana"; field "password" "secret";
                    field "userKey" "parceiro"])
     = LoggedIn tok uobj <->
     exists user h,
       q_user_by_username demo_users (js "ana") = [user]
       /\ In user demo_users /\ user_username user = Some (js "ana")
       /\ password_hash user = Some h /\ h <> []
       /\ bcrypt_compare demo_auth (js "secret") h = true
       /\ tok = jwtSign demo_auth (password_payload user)
       /\ uobj = password_user user)
  /\ auth_login demo_auth demo_users
       (login_body [field "username" "ana"; field "password" "secret";
                    field "userKey" "parceiro"])
     = LoggedIn (js "tok:U1")
         (JObj [field "id" "U1"; field "username" "ana"])
  /\ auth_login demo_auth demo_users
       (login_body [field "username" "ana"; field "password" "guess";
                    field "userKey" "parceiro"])
     = LoginBadCredentials.
Proof.
  split; [|split; vm_compute; reflexivity].
  apply (password_login demo_auth demo_users
           [field "username" "ana"; field "password" "secret";
            field "userKey" "parceiro"] (u := js "ana") (p := js "secret"));
    first [reflexivity | discriminate].
Defined.

Lemma key_login_witness :
  exists first,
    q_user_by_key demo_users (js "parceiro") = [first]
    /\ In first demo_users /\ user_key first = js "parceiro"
    /\ auth_login demo_auth demo_users
         (login_body [field "userKey" "parceiro"])
       = LoggedIn (jwtSign demo_auth (key_payload first)) (key_user first).
Proof.
  apply (proj2 (key_login demo_auth demo_users [field "userKey" "parceiro"]
                  (k := js "parceiro")
                  (or_introl eq_refl) eq_refl (or_intror eq_refl))
           (nth 1 demo_users (nth 0 demo_users
              {| user_id := []; user_key := []; display_name := [];
                 user_username := None; password_hash := None |}))).
  - right; left; reflexivity.
  - reflexivity.
Defined.

Lemma unknown_key_is_invalid_witness :
  auth_login demo_auth demo_users (login_body [field "userKey" "root"])
  = LoginInvalid.
Proof.
  apply (unknown_key_is_invalid demo_auth demo_users [field "userKey" "root"]).
  - left; reflexivity.
  - intros k H. injection H as <-. split; discriminate.
Defined.


(** ** History against the store *)

Lemma filter_length_perm (A : Type) (f : A -> bool) (l l' : list A) :
  Permutation l l' -> List.length (filter f l) = List.length (filter f l').
Proof.
  induction 1 as [|x l l' _ IH|x y l|l l' l'' _ IH1 _ IH2]; simpl.
  - reflexivity.
  - destruct (f x); simpl; congruence.
  - destruct (f x), (f y); reflexivity.
  - congruence.
Qed.

Lemma filter_andb_length (A : Type) (f g : A -> bool) (l : list A) :
  List.length (filter (fun x => f x && g x) l)
  = List.length (filter g (filter f l)).
Proof.
  induction l as [|x l IH]; simpl; [reflexivity|].
  destruct (f x); simpl; [|exact IH]. destruct (g x); simpl; congruence.
Qed.

Lemma sorted_firstn_older (n : nat) (l : list MessageRow) (x : MessageRow) :
  StronglySorted by_created_at l -> In x (firstn n l) ->
  (List.length (filter (fun y => (created_at y <? created_at x)%Z) l) < n)%nat.
Proof.
  intros Hs; revert n; induction Hs as [|a l Hs IH Ha]; intros [|n]; simpl;
    try tauto.
  intros [->|Hin].
  - rewrite Z.ltb_irrefl.
    assert (E : filter (fun y => (created_at y <? created_at x)%Z) l = []).
    { clear -Ha. induction Ha as [|y l Hy Hl IH]; simpl; [reflexivity|].
      unfold by_created_at in Hy.
      destruct (created_at y <? created_at x)%Z eqn:E; [|exact IH].
      apply Z.ltb_lt in E. lia. }
    rewrite E. simpl. lia.
  - specialize (IH n Hin).
    destruct (created_at a <? created_at x)%Z; simpl; lia.
Qed.

(** X11: The history of a conversation is its oldest messages: no returned row
    has 500 strictly older messages of the conversation behind it, so once a
    conversation holds 500 messages, whatever is sent later is never shown. *)
Theorem history_is_the_oldest_500 (d : Db) (c : jsstring) (r : HistoryRow) :
  (500 <= older_in d c (h_createdAt r))%nat ->
  ~ In r (q_select_history d c).
Proof.
  unfold older_in, q_select_history. intros Hold Hin.
  apply in_map_iff in Hin as (x & <- & Hx). simpl in Hold.
  pose proof (@sorted_firstn_older 500 _ _
                (order_by_created_at_sorted
                   (filter (fun m => jsstring_eqb (conversation_id m) c)
                           (messages d))) Hx) as Hlt.
  rewrite <- (filter_length_perm _ (order_by_created_at_perm _)) in Hlt.
  rewrite filter_andb_length in Hold. lia.
Qed.

Lemma limit_cuts_nothing (d : Db) (c : jsstring) :
  (count_in d c <= 500)%nat ->
  q_select_history d c
  = map history_row
      (order_by_created_at
         (filter (fun m => jsstring_eqb (conversation_id m) c) (messages d))).
Proof.
  unfold count_in, q_select_history. intros Hle.
  rewrite firstn_all2; [reflexivity|].
  rewrite <- (Permutation_length (order_by_created_at_perm _)). exact Hle.
Qed.

(** X12: While a conversation holds at most 500 messages its history is
    complete: every stored message of the conversation is returned, once,
    and nothing else. *)
Theorem short_history_is_complete (d : Db) (c : jsstring) :
  (count_in d c <= 500)%nat ->
  Permutation
    (map history_row
       (filter (fun m => jsstring_eqb (conversation_id m) c) (messages d)))
    (q_select_history d c).
Proof.
  intros Hle. rewrite (limit_cuts_nothing d c Hle).
  apply Permutation_map, order_by_created_at_perm.
Qed.

Section SendThenFetch.

Variable P : Platform.

Lemma get_messages_run (req : HttpReq) (user : JwtPayload) (d : Db) (m : Mem)
    (fresh : jsstring * Z) :
  req_jwtVerify P req = Some user ->
  run_alone fresh (get_conversation_messages P req) d m
  = if isParticipant d (params_id req) (payload_uid user)
    then (d, m, Some (Messages (q_select_history d (params_id req))))
    else (d, m, Some NoAccess).
Proof.
  intros Hu. unfold get_conversation_messages; rewrite Hu. simpl.
  fold (isParticipant d (params_id req) (payload_uid user)).
  destruct (isParticipant d (params_id req) (payload_uid user)); reflexivity.
Qed.

(** X13: A message a participant has just sent is in the history a participant
    fetches next, as long as the conversation held fewer than 500 messages
    before. *)
Theorem send_then_fetch (req req' : HttpReq) (user user' : JwtPayload)
    (data : SendData) (d : Db) (m m' : Mem) (fresh fresh' : jsstring * Z) :
  req_jwtVerify P req = Some user ->
  SendMessageBody_safeParse P (body req) = Some data ->
  isParticipant d (d_conversationId data) (payload_uid user) = true ->
  check_content data = None ->
  req_jwtVerify P req' = Some user' ->
  params_id req' = d_conversationId data ->
  isParticipant d (d_conversationId data) (payload_uid user') = true ->
  (count_in d (d_conversationId data) < 500)%nat ->
  let d1 := fst (fst (run_alone fresh (post_messages P req) d m)) in
  exists rows,
    run_alone fresh' (get_conversation_messages P req') d1 m'
    = (d1, m', Some (Messages rows))
    /\ In (history_row (stored_row fresh data (payload_uid user))) rows.
Proof.
  intros Hu Hp Hok Hc Hu' Hid Hok' Hcount d1.
  assert (Ed1 : d1 = {| conversations := conversations d;
                        messages := messages d
                                    ++ [stored_row fresh data (payload_uid user)] |}).
  { unfold d1. rewrite (post_messages_run P req d m fresh Hu Hp), Hok, Hc.
    reflexivity. }
  assert (Hok1 : isParticipant d1 (params_id req') (payload_uid user') = true).
  { rewrite Hid, Ed1. exact Hok'. }
  exists (q_select_history d1 (params_id req')).
  split; [rewrite (get_messages_run req' d1 m' fresh' Hu'), Hok1; reflexivity|].
  rewrite limit_cuts_nothing.
  - apply in_map. eapply Permutation_in; [apply order_by_created_at_perm|].
    rewrite Hid, Ed1; simpl. rewrite filter_app.
    apply in_or_app; right. simpl. rewrite jsstring_eqb_refl. left; reflexivity.
  - rewrite Hid, Ed1.
    unfold count_in in *; simpl. rewrite filter_app, length_app; simpl.
    rewrite jsstring_eqb_refl; simpl. lia.
Qed.

End SendThenFetch.

Lemma history_is_the_oldest_500_witness :
  (500 <= older_in (demo_long_db 501) c1 500)%nat
  /\ List.length (q_select_history (demo_long_db 501) c1) = 500%nat
  /\ ~ In (history_row
             {| msg_id := decimal 500; conversation_id := c1;
                sender_id := js "U1"; msg_type := TText;
                msg_text := Some (js "x"); media_url := None;
                media_meta := None; created_at := 500 |})
          (q_select_history (demo_long_db 501) c1).
Proof.
  assert (H : (500 <= older_in (demo_long_db 501) c1 500)%nat).
  { vm_compute. apply le_n. }
  split; [exact H|]. split; [vm_compute; reflexivity|].
  apply (history_is_the_oldest_500 (demo_long_db 501) c1). exact H.
Defined.

Lemma short_history_is_complete_witness :
  (count_in demo_history_db c1 <= 500)%nat
  /\ Permutation
       (map history_row
          (filter (fun m => jsstring_eqb (conversation_id m) c1)
                  (messages demo_history_db)))
       (q_select_history demo_history_db c1).
Proof.
  assert (H : (count_in demo_history_db c1 <= 500)%nat).
  { vm_compute. repeat constructor. }
  split; [exact H | exact (short_history_is_complete demo_history_db c1 H)].
Defined.

Lemma send_then_fetch_witness :
  exists rows,
    run_alone (js "m10", 9%Z)
      (get_conversation_messages demo (post_req "tok:U2" body_hi))
      (fst (fst (run_alone (js "m9", 7%Z)
                   (post_messages demo (post_req "tok:U1" body_hi))
                   demo_history_db empty_mem)))
      empty_mem
    = (fst (fst (run_alone (js "m9", 7%Z)
                   (post_messages demo (post_req "tok:U1" body_hi))
                   demo_history_db empty_mem)),
       empty_mem, Some (Messages rows))
    /\ In (history_row (stored_row (js "m9", 7%Z) demo_data_hi (js "U1"))) rows.
Proof.
  eapply (send_then_fetch demo (post_req "tok:U1" body_hi)
            (post_req "tok:U2" body_hi) demo_history_db empty_mem empty_mem
            (js "m9", 7%Z) (js "m10", 9%Z) (data := demo_data_hi)
            (user := {| payload_uid := js "U1" |})).
  - reflexivity.
  - reflexivity.
  - reflexivity.
  - reflexivity.
  - reflexivity.
  - reflexivity.
  - reflexivity.
  - vm_compute. repeat constructor.
Defined.

(** ** The life of a connection *)

Section ConnectionLife.

Variable P : Platform.

Lemma shaped_get (req : HttpReq) : shaped (get_conversation_messages P req).
Proof.
  unfold get_conversation_messages.
  destruct (req_jwtVerify P req); simpl; [|exact I].
  intros rows m. destruct (first_ok rows); simpl.
  - split; [constructor|]. intros rows' m'. split; [constructor | exact I].
  - split; [constructor | exact I].
Qed.

Lemma shaped_post (req : HttpReq) : shaped (post_messages P req).
Proof.
  unfold post_messages.
  destruct (req_jwtVerify P req); simpl; [|exact I].
  destruct (SendMessageBody_safeParse P (body req)) as [data|]; simpl;
    [|exact I].
  intros rows m. unfold post_after_participant.
  destruct (first_ok rows); simpl; [|split; [constructor | exact I]].
  destruct (check_content data); simpl; [split; [constructor | exact I]|].
  split; [constructor|].
  intros ids m'. unfold post_after_insert.
  destruct ids as [|messageId ids]; [split; [constructor | exact I]|].
  rewrite (broadcast_spec P). simpl. split; [constructor | exact I].
Qed.

Lemma shaped_ws (sock : nat) (req : WsReq) :
  shaped_task {| origin := Ws sock; state := Runnable (ws_handler P sock req) |}.
Proof.
  unfold shaped_task; simpl. intros m. unfold ws_handler.
  destruct (negb (truthy_opt (ws_token req)));
    [split; [constructor | exact I]|].
  destruct (ws_token req) as [tok|]; [|split; [constructor | exact I]].
  destruct (jwt_verify P tok) as [payload|];
    [|split; [constructor | exact I]].
  destruct (negb (truthy _)); [split; [constructor | exact I]|].
  split; [constructor|]. simpl. intros rows m'.
  unfold ws_after_participant. destruct (first_ok rows); simpl.
  - split; [apply shape_register | exact I].
  - split; [constructor | exact I].
Qed.

Lemma reachable_shaped (s : Sys) :
  reachable P s -> Forall shaped_task (pool s).
Proof.
  induction 1 as [d|s e Hr IH]; [constructor|].
  destruct e as [req|req|req|i fresh|i|sock|sock|sock]; simpl; try exact IH.
  - apply Forall_app; split; [exact IH|].
    constructor; [apply shaped_get | constructor].
  - apply Forall_app; split; [exact IH|].
    constructor; [apply shaped_post | constructor].
  - apply Forall_app; split; [exact IH|].
    constructor; [apply shaped_ws | constructor].
  - destruct (nth_error (pool s) i) as [[o [k|p]]|] eqn:Ei; try exact IH.
    assert (Hp : shaped p).
    { rewrite Forall_forall in IH. apply (IH _ (nth_error_In _ _ Ei)). }
    destruct p as [r|c u k|c k|c u t x mu mm k]; simpl; try exact IH;
      apply set_nth_Forall; try exact IH; intros m; apply Hp.
  - destruct (nth_error (pool s) i) as [[o [k|p]]|] eqn:Ei; try exact IH.
    assert (Hk : forall m, seg_shape m (fst (k m)) /\ shaped (snd (k m))).
    { rewrite Forall_forall in IH. apply (IH _ (nth_error_In _ _ Ei)). }
    specialize (Hk (mem s)). destruct (k (mem s)) as [m' p]. simpl.
    apply set_nth_Forall; [exact IH | apply Hk].
Qed.

(** Outside the socket events, a step of the event loop does to the
    process memory what one handler segment does. *)
Lemma step_shape (s : Sys) (e : Event) :
  reachable P s ->
  match e with
  | SocketCloses _ | SocketFails _ | SocketRecovers _ => True
  | _ => seg_shape (mem s) (mem (step P s e))
  end.
Proof.
  intros Hr. destruct e as [req|req|req|i fresh|i|sock|sock|sock]; simpl;
    try exact I; try constructor.
  - destruct (nth_error (pool s) i) as [[o [k|p]]|]; try constructor.
    destruct (answer (db s) fresh p) as [[d' k]|]; constructor.
  - destruct (nth_error (pool s) i) as [[o [k|p]]|] eqn:Ei; try constructor.
    pose proof (reachable_shaped Hr) as Hs. rewrite Forall_forall in Hs.
    pose proof (Hs _ (nth_error_In _ _ Ei) (mem s)) as [Hk _].
    simpl in Hk. destruct (k (mem s)) as [m' p]. exact Hk.
Qed.

Lemma seg_shape_grows (m m' : Mem) : seg_shape m m' -> grows m m'.
Proof.
  intros [|calls|sock|u c sock]; unfold grows; simpl.
  - repeat split; exists []; rewrite app_nil_r; reflexivity.
  - repeat split; eauto; exists []; rewrite app_nil_r; reflexivity.
  - repeat split; eauto; exists []; rewrite app_nil_r; reflexivity.
  - repeat split; eauto; exists []; rewrite app_nil_r; reflexivity.
Qed.

(** X14: A connection stays registered until the close event of its socket:
    no request, store answer, resumed handler or socket failure removes a
    client, and the traces of [send] and [close] calls and the listeners only
    ever grow at their end. *)
Theorem registry_only_shrinks_on_close (s : Sys) (e : Event) :
  reachable P s -> is_close_event e = false ->
  grows (mem s) (mem (step P s e)).
Proof.
  intros Hr He. pose proof (step_shape e Hr) as H.
  destruct e; try discriminate; try (apply seg_shape_grows; exact H);
    unfold grows; simpl;
    repeat split; exists []; rewrite app_nil_r; reflexivity.
Qed.

Lemma seg_shape_listening (m m' : Mem) :
  seg_shape m m' -> listening m -> listening m'.
Proof.
  unfold listening. intros [|calls|sock|u c sock] H; simpl; try exact H.
  apply Forall_app; split.
  - eapply Forall_impl; [|exact H]. intros x Hx. apply in_or_app; auto.
  - repeat constructor. apply in_or_app; right; left; reflexivity.
Qed.

Lemma reachable_listening (s : Sys) : reachable P s -> listening (mem s).
Proof.
  induction 1 as [d|s e Hr IH]; [constructor|].
  pose proof (step_shape e Hr) as H.
  destruct e as [req|req|req|i fresh|i|sock|sock|sock];
    try (apply (seg_shape_listening H IH)).
  - simpl. unfold listening, emit_close.
    rewrite listeners_close_listeners.
    destruct (close_listeners_shrinks sock (listeners (mem s)) (mem s))
      as (_ & F & _).
    apply F. exact IH.
  - exact IH.
  - exact IH.
Qed.

(** X15: Once the close event of a socket has been handled, no registered
    client refers to that socket, so a broadcast that runs next makes no
    [send] call on it, whatever the conversation. *)
Theorem closed_socket_is_deregistered (s : Sys) (sock : nat)
    (frame c : jsstring) :
  reachable P s ->
  let m' := mem (step P s (SocketCloses sock)) in
  Forall (fun x => socket x <> sock) (wsClients m')
  /\ calls_on sock (calls_for m' frame (registered_for c m')) = 0.
Proof.
  intros Hr m'.
  assert (Hall : Forall (fun x => socket x <> sock) (wsClients m')).
  { destruct (reachable_SysInv Hr) as ((_ & Hnd & _) & _).
    pose proof (reachable_listening Hr) as Hl.
    unfold m'; simpl. unfold emit_close.
    destruct (close_listeners_shrinks sock (listeners (mem s)) (mem s))
      as (_ & F & _).
    pose proof (F (fun x => In (socket x, x) (listeners (mem s))) Hl) as Hin.
    rewrite Forall_forall in *. intros x Hx Hsock.
    pose proof (@close_listeners_absent sock (listeners (mem s)) (mem s) Hnd
                  (socket x, x) (Hin x Hx) Hsock) as Habs.
    unfold absent in Habs. rewrite Forall_forall in Habs.
    exact (Habs x Hx eq_refl). }
  split; [exact Hall|].
  apply calls_on_absent. intros Hin.
  apply in_map_iff in Hin as (x & Hx & Hin).
  unfold registered_for in Hin. apply filter_In in Hin as [Hin _].
  rewrite Forall_forall in Hall. exact (Hall x Hin Hx).
Qed.

End ConnectionLife.

(** ** Teardown, precisely *)

Lemma filter_others_id (c : WsClient) (l : list WsClient) :
  Forall (fun x => ref x <> ref c) l ->
  filter (fun x => negb (same_object x c)) l = l.
Proof.
  induction 1 as [|x l Hx Hl IH]; simpl; [reflexivity|].
  unfold same_object at 1. destruct (Nat.eqb_spec (ref x) (ref c)); [tauto|].
  simpl. f_equal. exact IH.
Qed.

Lemma indexOf_absent_inv (c : WsClient) (l : list WsClient) :
  indexOf c l = (-1)%Z -> Forall (fun x => ref x <> ref c) l.
Proof.
  induction l as [|x l IH]; simpl; [constructor|].
  unfold same_object. destruct (Nat.eqb_spec (ref x) (ref c)); [discriminate|].
  destruct (indexOf c l <? 0)%Z eqn:E; [|apply Z.ltb_ge in E; lia].
  intros _. constructor; [assumption|]. apply IH.
  destruct (indexOf_range c l); [assumption | apply Z.ltb_lt in E; lia].
Qed.

Lemma splice_indexOf_filter (c : WsClient) (l : list WsClient) :
  NoDup (map ref l) -> (0 <= indexOf c l)%Z ->
  splice1 (Z.to_nat (indexOf c l)) l
  = filter (fun x => negb (same_object x c)) l.
Proof.
  induction l as [|x l IH]; simpl; [lia|].
  intros Hnd. inversion Hnd as [|? ? Hx Hl]; subst.
  destruct (same_object x c) eqn:Es; simpl.
  - intros _. unfold splice1; simpl. symmetry. apply filter_others_id.
    apply Nat.eqb_eq in Es.
    rewrite Forall_forall. intros y Hy Ey. apply Hx. rewrite Es, <- Ey.
    apply in_map; assumption.
  - destruct (indexOf c l <? 0)%Z eqn:El; [lia|].
    apply Z.ltb_ge in El. intros _.
    replace (Z.to_nat (indexOf c l + 1)) with (S (Z.to_nat (indexOf c l)))
      by lia.
    rewrite splice1_cons. f_equal. apply IH; assumption.
Qed.

Section TeardownExact.

Variable P : Platform.

(** X16: In every reachable state the close callback of a client removes that
    client and nothing else: the other clients stay, in their order, and the
    traces, the listeners and the failing sockets are untouched. *)
Theorem close_removes_exactly_its_client (s : Sys) (c : WsClient) :
  reachable P s ->
  on_close c (mem s)
  = set_wsClients (mem s)
      (filter (fun x => negb (same_object x c)) (wsClients (mem s))).
Proof.
  intros Hr. destruct (reachable_SysInv Hr) as ((_ & Hnd & _) & _).
  unfold on_close. destruct (indexOf_range c (wsClients (mem s))) as [E|E].
  - rewrite E; simpl. rewrite filter_others_id by (apply indexOf_absent_inv, E).
    destruct (mem s); reflexivity.
  - destruct (indexOf c (wsClients (mem s)) >=? 0)%Z eqn:E'; [|lia].
    rewrite splice_indexOf_filter by assumption. reflexivity.
Qed.


(** X18: A close event that arrives while the handshake still waits for the
    membership answer finds no callback of this connection to run; when the
    answer comes the handler registers the client all the same, on the socket
    that has already closed, and never calls [close] on it. *)
Theorem close_before_registration (s : Sys) (i sock : nat) (c u : jsstring)
    (fresh : jsstring * Z) :
  nth_error (pool s) i
  = Some {| origin := Ws sock;
            state := Suspended (await_isParticipant c u
                                  (ws_after_participant sock c u)) |} ->
  isParticipant (db s) c u = true ->
  let s1 := step P s (SocketCloses sock) in
  let s2 := run_events P s1 [StoreAnswers i fresh; Resume i] in
  wsClients (mem s2) = wsClients (mem s1) ++ [new_client u c sock (mem s1)]
  /\ closed (mem s2) = closed (mem s)
  /\ In (sock, new_client u c sock (mem s1)) (listeners (mem s2)).
Proof.
  intros Hi Hp s1 s2.
  assert (Hclosed : closed (mem s1) = closed (mem s)).
  { unfold s1; simpl. unfold emit_close.
    generalize (listeners (mem s)) at 1 as ls. generalize (mem s) as m.
    intros m ls; revert m; induction ls as [|[s' x] ls IH]; intros m; simpl;
      [reflexivity|].
    rewrite IH. destruct (Nat.eqb s' sock); [|reflexivity].
    unfold on_close. destruct (_ >=? _)%Z; reflexivity. }
  assert (Hpool : pool s1 = pool s) by reflexivity.
  assert (Hdb : db s1 = db s) by reflexivity.
  assert (E2 : mem s2 = registered u c sock (mem s1)).
  { unfold s2, run_events. cbn [fold_left].
    set (sa := step P s1 (StoreAnswers i fresh)).
    assert (Esa : sa = {| db := db s1; mem := mem s1;
                          next_sock := next_sock s1;
                          pool := set_nth i
                                    {| origin := Ws sock;
                                       state := Runnable
                                         (ws_after_participant sock c u
                                            (first_ok (q_select_participant
                                                         (db s1) c u))) |}
                                    (pool s1) |}).
    { unfold sa. cbn [step]. rewrite Hpool, Hi. reflexivity. }
    rewrite Esa. cbn [step pool mem].
    rewrite (nth_error_set_nth _ _ (y := {| origin := Ws sock;
               state := Suspended (await_isParticipant c u
                                     (ws_after_participant sock c u)) |}))
      by (rewrite Hpool; exact Hi).
    rewrite Hdb. fold (isParticipant (db s) c u). rewrite Hp.
    reflexivity. }
  rewrite E2. simpl. split; [reflexivity|]. split; [exact Hclosed|].
  apply in_or_app; right; left; reflexivity.
Qed.

End TeardownExact.

(** ** The token of a handshake *)

(** X19: A header [Bearer <token>] with a non-empty token decides, whatever the
    query says; with no such header (none at all, another scheme, or
    [Bearer ] with nothing after it) the non-empty query token is used, and
    otherwise there is no token. *)
Theorem ws_token_precedence (req : WsReq) :
  (forall tok, headers_authorization req = Some (js "Bearer " ++ tok) ->
               tok <> [] -> ws_token req = Some tok)
  /\ (headers_authorization req = None
      \/ headers_authorization req = Some (js "Bearer ")
      \/ (exists a, headers_authorization req = Some a
                    /\ startsWith (js "Bearer ") a = false) ->
      ws_token req = match query_token req with
                     | Some (x :: t) => Some (x :: t)
                     | _ => None
                     end).
Proof.
  split; [apply ws_token_header|].
  intros [H | [H | (a & H & Ha)]]; unfold ws_token; rewrite H.
  - destruct (query_token req) as [[|x t]|]; reflexivity.
  - destruct (query_token req) as [[|x t]|]; reflexivity.
  - rewrite Ha. destruct (query_token req) as [[|x t]|]; reflexivity.
Qed.

Lemma registry_only_shrinks_on_close_witness :
  reachable demo demo_state
  /\ grows (mem demo_state)
       (mem (step demo demo_state
               (HttpPostMessages (post_req "tok:U1" body_hi))))
  /\ grows (mem demo_state) (mem (step demo demo_state (SocketFails 1))).
Proof.
  split; [exact demo_state_reachable|]. split.
  - apply (registry_only_shrinks_on_close
             (HttpPostMessages (post_req "tok:U1" body_hi))
             demo_state_reachable).
    reflexivity.
  - apply (registry_only_shrinks_on_close (SocketFails 1)
             demo_state_reachable).
    reflexivity.
Defined.

Lemma closed_socket_is_deregistered_witness :
  reachable demo demo_state
  /\ Forall (fun x => socket x <> 2)
       (wsClients (mem (step demo demo_state (SocketCloses 2))))
  /\ calls_on 2
       (calls_for (mem (step demo demo_state (SocketCloses 2))) (js "frame")
          (registered_for c1 (mem (step demo demo_state (SocketCloses 2)))))
     = 0.
Proof.
  split; [exact demo_state_reachable|].
  exact (closed_socket_is_deregistered 2 (js "frame") c1 demo_state_reachable).
Defined.

Lemma close_removes_exactly_its_client_witness :
  reachable demo demo_state
  /\ on_close (demo_client 1) (mem demo_state)
     = set_wsClients (mem demo_state)
         (filter (fun x => negb (same_object x (demo_client 1)))
                 (wsClients (mem demo_state)))
  /\ wsClients (on_close (demo_client 1) (mem demo_state))
     = [demo_client 0; demo_client 2].
Proof.
  split; [exact demo_state_reachable|]. split.
  - exact (close_removes_exactly_its_client (demo_client 1)
             demo_state_reachable).
  - vm_compute. reflexivity.
Defined.

Lemma close_before_registration_witness :
  wsClients (mem (run_events demo (step demo demo_waiting (SocketCloses 0))
                    [StoreAnswers 0 ([], 0%Z); Resume 0]))
  = wsClients (mem (step demo demo_waiting (SocketCloses 0)))
    ++ [new_client (js "U2") c1 0 (mem (step demo demo_waiting (SocketCloses 0)))]
  /\ closed (mem (run_events demo (step demo demo_waiting (SocketCloses 0))
                     [StoreAnswers 0 ([], 0%Z); Resume 0]))
     = closed (mem demo_waiting)
  /\ In (0, new_client (js "U2") c1 0
               (mem (step demo demo_waiting (SocketCloses 0))))
       (listeners (mem (run_events demo
                          (step demo demo_waiting (SocketCloses 0))
                          [StoreAnswers 0 ([], 0%Z); Resume 0]))).
Proof.
  apply (close_before_registration demo demo_waiting 0 ([], 0%Z)
           (sock := 0) (c := c1) (u := js "U2")); reflexivity.
Defined.

(** ** What gets stored, what gets sent *)

Section StoredAndSent.

Variable P : Platform.

Lemma valid_get (cs : list ConversationRow) (req : HttpReq) :
  inserts_valid cs (get_conversation_messages P req).
Proof.
  unfold get_conversation_messages.
  destruct (req_jwtVerify P req); simpl; [|exact I].
  intros m. destruct (first_ok _); simpl; [|exact I].
  intros rows m'. exact I.
Qed.

Lemma valid_post (cs : list ConversationRow) (req : HttpReq) :
  inserts_valid cs (post_messages P req).
Proof.
  unfold post_messages.
  destruct (req_jwtVerify P req) as [user|]; simpl; [|exact I].
  destruct (SendMessageBody_safeParse P (body req)) as [data|]; simpl;
    [|exact I].
  intros m. unfold post_after_participant.
  destruct (first_ok _) eqn:Eok; simpl; [|exact I].
  destruct (check_content data) eqn:Ec; simpl; [exact I|].
  split.
  - intros fresh. unfold valid_row, inserted_row; simpl.
    split; [exact Eok|].
    rewrite !sql_text_str_or_null.
    destruct (d_type data) eqn:Et.
    + apply (proj2 (check_content_text data Et)). exact Ec.
    + assert (Hne : d_type data <> TText) by congruence.
      apply (proj2 (check_content_media data Hne)) in Ec.
      destruct (d_mediaUrl data) as [[|x u]|]; try discriminate.
      eexists; split; [reflexivity | discriminate].
    + assert (Hne : d_type data <> TText) by congruence.
      apply (proj2 (check_content_media data Hne)) in Ec.
      destruct (d_mediaUrl data) as [[|x u]|]; try discriminate.
      eexists; split; [reflexivity | discriminate].
    + assert (Hne : d_type data <> TText) by congruence.
      apply (proj2 (check_content_media data Hne)) in Ec.
      destruct (d_mediaUrl data) as [[|x u]|]; try discriminate.
      eexists; split; [reflexivity | discriminate].
  - intros rows m'. unfold post_after_insert.
    destruct rows as [|messageId rows]; [exact I|].
    rewrite (broadcast_spec P). exact I.
Qed.

Lemma valid_ws (cs : list ConversationRow) (sock : nat) (req : WsReq) :
  task_inserts_valid cs
    {| origin := Ws sock; state := Runnable (ws_handler P sock req) |}.
Proof.
  unfold task_inserts_valid; simpl. intros m. unfold ws_handler.
  destruct (negb (truthy_opt (ws_token req))); [exact I|].
  destruct (ws_token req) as [tok|]; [|exact I].
  destruct (jwt_verify P tok) as [payload|]; [|exact I].
  destruct (negb (truthy _)); [exact I|].
  simpl. intros m'. unfold ws_after_participant.
  destruct (first_ok _); exact I.
Qed.

Lemma step_inserts_valid (s : Sys) (e : Event) :
  Forall (task_inserts_valid (conversations (db s))) (pool s) ->
  exists l,
    messages (db (step P s e)) = messages (db s) ++ l
    /\ Forall (valid_row (conversations (db s))) l
    /\ conversations (db (step P s e)) = conversations (db s)
    /\ Forall (task_inserts_valid (conversations (db s))) (pool (step P s e)).
Proof.
  intros Hpool.
  assert (Hsame : exists l,
            messages (db s) = messages (db s) ++ l
            /\ Forall (valid_row (conversations (db s))) l
            /\ conversations (db s) = conversations (db s)
            /\ Forall (task_inserts_valid (conversations (db s))) (pool s)).
  { exists []. rewrite app_nil_r. auto. }
  destruct e as [req|req|req|i fresh|i|sock|sock|sock]; simpl;
    try exact Hsame.
  - exists []. rewrite app_nil_r. repeat (split; [auto|]).
    apply Forall_app; split; [exact Hpool|].
    constructor; [apply valid_get | constructor].
  - exists []. rewrite app_nil_r. repeat (split; [auto|]).
    apply Forall_app; split; [exact Hpool|].
    constructor; [apply valid_post | constructor].
  - exists []. rewrite app_nil_r. repeat (split; [auto|]).
    apply Forall_app; split; [exact Hpool|].
    constructor; [apply valid_ws | constructor].
  - destruct (nth_error (pool s) i) as [[o [k|p]]|] eqn:Ei; try exact Hsame.
    assert (Hp : inserts_valid (conversations (db s)) p).
    { rewrite Forall_forall in Hpool. apply (Hpool _ (nth_error_In _ _ Ei)). }
    destruct p as [r|c u k|c k|c u t x mu mm k]; simpl; try exact Hsame.
    + exists []. rewrite app_nil_r. repeat (split; [auto|]).
      apply set_nth_Forall; [exact Hpool | exact Hp].
    + exists []. rewrite app_nil_r. repeat (split; [auto|]).
      apply set_nth_Forall; [exact Hpool|]. intros m; apply Hp.
    + destruct Hp as [Hrow Hk].
      exists [inserted_row fresh c u t x mu mm].
      split; [reflexivity|]. split; [repeat constructor; apply Hrow|].
      split; [reflexivity|].
      apply set_nth_Forall; [exact Hpool|]. intros m; apply Hk.
  - destruct (nth_error (pool s) i) as [[o [k|p]]|] eqn:Ei; try exact Hsame.
    assert (Hk : forall m, inserts_valid (conversations (db s)) (snd (k m))).
    { rewrite Forall_forall in Hpool. apply (Hpool _ (nth_error_In _ _ Ei)). }
    specialize (Hk (mem s)). destruct (k (mem s)) as [m' p]. simpl.
    exists []. rewrite app_nil_r. repeat (split; [auto|]).
    apply set_nth_Forall; [exact Hpool | exact Hk].
Qed.

(** X20: Whatever requests arrive and however their handlers interleave, every
    message the server adds to the store was sent by a participant of its
    conversation and fits the content rule of its type: a text that is not
    blank, or a non-empty media reference. *)
Theorem stored_messages_are_valid (d0 : Db) (es : list Event) :
  exists added,
    messages (db (run_events P (initial d0) es)) = messages d0 ++ added
    /\ Forall (valid_row (conversations d0)) added.
Proof.
  assert (Hgen : forall es s,
            Forall (task_inserts_valid (conversations (db s))) (pool s) ->
            exists added,
              messages (db (run_events P s es)) = messages (db s) ++ added
              /\ Forall (valid_row (conversations (db s))) added).
  { unfold run_events. induction es0 as [|e es0 IH]; intros s Hpool; simpl.
    - exists []. rewrite app_nil_r. auto.
    - destruct (step_inserts_valid s e Hpool) as (l & Hl & Hv & Hc & Hpool').
      rewrite <- Hc in Hpool'.
      destruct (IH _ Hpool') as (added & Ha & Hva).
      exists (l ++ added). rewrite Ha, Hl, app_assoc. split; [reflexivity|].
      apply Forall_app; split; [exact Hv|]. rewrite <- Hc. exact Hva. }
  apply (Hgen es (initial d0)). constructor.
Qed.

End StoredAndSent.

Lemma sent_close_listeners (s : nat) (ls : list (nat * WsClient)) (m : Mem) :
  sent (close_listeners s ls m) = sent m.
Proof.
  revert m; induction ls as [|[s' c] ls IH]; intros m; simpl; [reflexivity|].
  rewrite IH. destruct (Nat.eqb s' s); [|reflexivity].
  unfold on_close. destruct (_ >=? _)%Z; reflexivity.
Qed.

Section OnlyStoredIsSent.

Variable P : Platform.

Lemma frame_of_stored_app (msgs l : list MessageRow) (k : SendCall) :
  frame_of_stored P msgs k -> frame_of_stored P (msgs ++ l) k.
Proof.
  intros (r & Hin & Hf). exists r. split; [apply in_or_app; auto | exact Hf].
Qed.

Lemma task_sends_stored_app (msgs l : list MessageRow) (t : Task) :
  task_sends_stored P msgs t -> task_sends_stored P (msgs ++ l) t.
Proof.
  unfold task_sends_stored. destruct (state t) as [k|p]; [|auto].
  intros H m. destruct (H m) as (calls & Hs & Hf & Hp).
  exists calls. split; [exact Hs|]. split; [|exact Hp].
  eapply Forall_impl; [|exact Hf]. intros; apply frame_of_stored_app; assumption.
Qed.

Lemma sends_get (req : HttpReq) :
  sends_stored P (get_conversation_messages P req).
Proof.
  unfold get_conversation_messages.
  destruct (req_jwtVerify P req); simpl; [|exact I].
  intros rows m. destruct (first_ok rows); simpl.
  - split; [reflexivity|]. intros rows' m'. split; [reflexivity | exact I].
  - split; [reflexivity | exact I].
Qed.

Lemma sends_post (req : HttpReq) : sends_stored P (post_messages P req).
Proof.
  unfold post_messages.
  destruct (req_jwtVerify P req) as [user|]; [|exact I].
  destruct (SendMessageBody_safeParse P (body req)) as [data|]; [|exact I].
  unfold await_isParticipant. cbn [sends_stored].
  intros rows m. unfold post_after_participant.
  destruct (first_ok rows); cbn [negb fst snd sends_stored];
    [|split; [reflexivity | exact I]].
  destruct (check_content data); cbn [fst snd sends_stored];
    [split; [reflexivity | exact I]|].
  split; [reflexivity|].
  intros fresh m'. rewrite (post_after_insert_spec P fresh data _ m').
  eexists. split; [reflexivity|]. split; [|exact I].
  apply calls_for_frame.
Qed.

Lemma sends_ws (msgs : list MessageRow) (sock : nat) (req : WsReq) :
  task_sends_stored P msgs
    {| origin := Ws sock; state := Runnable (ws_handler P sock req) |}.
Proof.
  unfold task_sends_stored; simpl. intros m. exists [].
  rewrite app_nil_r. unfold ws_handler.
  destruct (negb (truthy_opt (ws_token req))); [repeat split; constructor|].
  destruct (ws_token req) as [tok|]; [|repeat split; constructor].
  destruct (jwt_verify P tok) as [payload|]; [|repeat split; constructor].
  destruct (negb (truthy _)); [repeat split; constructor|].
  split; [reflexivity|]. split; [constructor|]. simpl.
  intros rows m'. unfold ws_after_participant.
  destruct (first_ok rows); simpl; split; try reflexivity; exact I.
Qed.

Lemma step_sends_stored (s : Sys) (e : Event) :
  Forall (frame_of_stored P (messages (db s))) (sent (mem s)) ->
  Forall (task_sends_stored P (messages (db s))) (pool s) ->
  Forall (frame_of_stored P (messages (db (step P s e))))
    (sent (mem (step P s e)))
  /\ Forall (task_sends_stored P (messages (db (step P s e))))
       (pool (step P s e)).
Proof.
  intros Hsent Hpool.
  destruct e as [req|req|req|i fresh|i|sock|sock|sock]; simpl;
    try (split; assumption).
  - split; [assumption|]. apply Forall_app; split; [assumption|].
    constructor; [apply sends_get | constructor].
  - split; [assumption|]. apply Forall_app; split; [assumption|].
    constructor; [apply sends_post | constructor].
  - split; [assumption|]. apply Forall_app; split; [assumption|].
    constructor; [apply sends_ws | constructor].
  - destruct (nth_error (pool s) i) as [[o [k|p]]|] eqn:Ei;
      try (split; assumption).
    assert (Hp : sends_stored P p).
    { rewrite Forall_forall in Hpool. apply (Hpool _ (nth_error_In _ _ Ei)). }
    destruct p as [r|c u k|c k|c u t x mu mm k]; simpl;
      try (split; assumption).
    + split; [assumption|]. apply set_nth_Forall; [assumption|].
      intros m. destruct (Hp (q_select_participant (db s) c u) m) as [E Hk].
      exists []. rewrite app_nil_r. auto.
    + split; [assumption|]. apply set_nth_Forall; [assumption|].
      intros m. destruct (Hp (q_select_history (db s) c) m) as [E Hk].
      exists []. rewrite app_nil_r. auto.
    + split.
      * eapply Forall_impl; [|exact Hsent].
        intros; apply frame_of_stored_app; assumption.
      * apply set_nth_Forall.
        -- eapply Forall_impl; [|exact Hpool].
           intros; apply task_sends_stored_app; assumption.
        -- intros m. destruct (Hp fresh m) as (calls & Hs & Hf & Hk).
           exists calls. split; [exact Hs|]. split; [|exact Hk].
           eapply Forall_impl; [|exact Hf]. intros call Hc.
           exists (inserted_row fresh c u t x mu mm).
           split; [apply in_or_app; right; left; reflexivity | exact Hc].
  - destruct (nth_error (pool s) i) as [[o [k|p]]|] eqn:Ei;
      try (split; assumption).
    assert (Hk : task_sends_stored P (messages (db s))
                   {| origin := o; state := Runnable k |}).
    { rewrite Forall_forall in Hpool. apply (Hpool _ (nth_error_In _ _ Ei)). }
    destruct (Hk (mem s)) as (calls & Hs & Hf & Hp).
    destruct (k (mem s)) as [m' p]. simpl in *. split.
    + rewrite Hs. apply Forall_app; split; assumption.
    + apply set_nth_Forall; [assumption | exact Hp].
  - split; [|assumption]. unfold emit_close.
    rewrite sent_close_listeners. assumption.
Qed.

(** X21: Nothing is broadcast that is not stored: in every reachable state each
    [send] call ever made carried the event of a message that is in the store
    by then. *)
Theorem only_stored_messages_are_sent (s : Sys) :
  reachable P s ->
  Forall (frame_of_stored P (messages (db s))) (sent (mem s)).
Proof.
  intros Hr.
  assert (H : Forall (frame_of_stored P (messages (db s))) (sent (mem s))
              /\ Forall (task_sends_stored P (messages (db s))) (pool s)).
  { induction Hr as [d|s e Hr IH].
    - split; constructor.
    - destruct IH as [H1 H2]. apply step_sends_stored; assumption. }
  exact (proj1 H).
Qed.

End OnlyStoredIsSent.

Lemma only_stored_messages_are_sent_witness :
  reachable demo demo_chat
  /\ List.length (sent (mem demo_chat)) = 2%nat
  /\ Forall (frame_of_stored demo (messages (db demo_chat)))
       (sent (mem demo_chat)).
Proof.
  assert (Hr : reachable demo demo_chat).
  { unfold demo_chat. apply reachable_run_events. exact demo_state_reachable. }
  split; [exact Hr|]. split; [vm_compute; reflexivity|].
  exact (only_stored_messages_are_sent Hr).
Defined.

(** ** Bodies the schema refuses *)

Section MalformedBodies.

Variable P : Platform.

(** X22: The optional fields are optional, not nullable: a body that is not an
    object, or whose [text] or [mediaUrl] is present with a value that is not
    a string ([null] included), is answered 400 before the store is asked,
    whoever sends it and whatever the message type. *)
Theorem malformed_bodies_are_refused (req : HttpReq) (user : JwtPayload)
    (d : Db) (m : Mem) (fresh : jsstring * Z) :
  req_jwtVerify P req = Some user ->
  match body req with
  | Some (JObj props) =>
      (exists v, get_prop (js "text") props = Some v
                 /\ forall s, v <> JStr s)
      \/ (exists v, get_prop (js "mediaUrl") props = Some v
                    /\ forall s, v <> JStr s)
  | _ => True
  end ->
  run_alone fresh (post_messages P req) d m = (d, m, Some InvalidData).
Proof.
  intros Hu Hbad.
  assert (Hp : SendMessageBody_safeParse P (body req) = None).
  { unfold SendMessageBody_safeParse.
    destruct (body req) as [[| | | | |props]|]; try reflexivity.
    assert (Hopt : forall v, (forall s, v <> JStr s) ->
                             z_string_optional (Some v) = None).
    { intros [| | |s| |] Hv; try reflexivity. exfalso; exact (Hv s eq_refl). }
    destruct (z_string_uuid P _); [|reflexivity].
    destruct (z_enum_type _); [|reflexivity].
    destruct Hbad as [(v & -> & Hv) | (v & -> & Hv)]; rewrite (Hopt v Hv).
    - reflexivity.
    - destruct (z_string_optional _); reflexivity. }
  unfold post_messages. rewrite Hu, Hp. reflexivity.
Qed.

End MalformedBodies.

Lemma malformed_bodies_are_refused_witness :
  run_alone (js "m9", 7%Z)
    (post_messages demo
       (post_req "tok:U1"
          (JObj [ field "conversationId" "11111111-1111-4111-8111-111111111111";
                  field "type" "image";
                  field "mediaUrl" "/files/1_a.png";
                  (js "text", JNull) ])))
    demo_db empty_mem
  = (demo_db, empty_mem, Some InvalidData)
  /\ run_alone (js "m9", 7%Z)
       (post_messages demo (post_req "tok:U1" (JArr []))) demo_db empty_mem
     = (demo_db, empty_mem, Some InvalidData).
Proof.
  split.
  - eapply (malformed_bodies_are_refused demo _ demo_db empty_mem (js "m9", 7%Z)).
    + reflexivity.
    + left. exists JNull. split; [reflexivity | discriminate].
  - eapply (malformed_bodies_are_refused demo _ demo_db empty_mem (js "m9", 7%Z)).
    + reflexivity.
    + exact I.
Defined.
